(** * utf42: compile-time selection of a string literal's encoding

    A shallow embedding of [utf42.h]: the aggregate [poly_enc] with its
    type-indexed accessor [visit] at each language standard level the header
    supports, and the fallback [utf42::basic_string_view] that the header
    defines for C++14 and C++11. *)

From stdpp Require Import base numbers option list strings gmap.

Open Scope Z_scope.
Open Scope nat_scope.

(** ** Template arguments

    The types a caller can pass as [char_t]. The five character types of
    [utf42::is_char] are named; a type with [const] or [volatile] on it is
    [qualified], so [const char] is [qualified cv_const char]; every other
    type is [other_type], named without qualifiers. *)

Inductive cv_qualifier : Type :=
| cv_const
| cv_volatile
| cv_const_volatile.

#[global] Instance cv_qualifier_eq_dec : EqDecision cv_qualifier :=
  ltac:(solve_decision).

Inductive cpp_type : Type :=
| char
| wchar_t
| char8_t
| char16_t
| char32_t
| qualified (cv : cv_qualifier) (T : cpp_type)
| other_type (name : string).

(** [std::remove_cv]: the type without its qualifiers. *)
Fixpoint unqualified (T : cpp_type) : cpp_type :=
  match T with
  | qualified _ T' => unqualified T'
  | _ => T
  end.

#[global] Instance cpp_type_eq_dec : EqDecision cpp_type :=
  ltac:(solve_decision).

(** ** Outcomes of a call

    A call either returns, throws, reads outside the array its pointer
    refers to (undefined behaviour), or is rejected by the compiler because
    the instantiation is ill-formed. *)

Inductive exception : Type :=
| out_of_range (what : string).

Inductive ill_formed : Type :=
| constraint_not_satisfied
| static_assertion_failed (message : option string)
| no_conversion.

Inductive outcome (A : Type) : Type :=
| Returns (a : A)
| Throws (e : exception)
| Undefined
| Rejected (why : ill_formed).

Arguments Returns {A} a.
Arguments Throws {A} e.
Arguments Undefined {A}.
Arguments Rejected {A} why.

#[global] Instance outcome_ret : MRet outcome := fun A a => Returns a.

#[global] Instance outcome_bind : MBind outcome := fun A B f o =>
  match o with
  | Returns a => f a
  | Throws e => Throws e
  | Undefined => Undefined
  | Rejected why => Rejected why
  end.

#[global] Instance outcome_fmap : FMap outcome := fun A B f o =>
  match o with
  | Returns a => Returns (f a)
  | Throws e => Throws e
  | Undefined => Undefined
  | Rejected why => Rejected why
  end.

(** The source compares sizes with [>=] and [>]. *)
#[global] Instance nat_ge_dec (a b : nat) : Decision (a >= b) := decide (b <= a).
#[global] Instance nat_gt_dec (a b : nat) : Decision (a > b) := decide (b < a).

(** ** Views

    A view is a pointer and a length. The pointer is modelled by the
    characters of the array it points into, from the pointee to the end of
    that array: [pStr[i]] is [pStr !! i], and an index past the end of the
    array is a read outside the object. Code units are integers; [size_type]
    values are naturals (no array extent exceeds [SIZE_MAX], so none of the
    size computations below wraps). The template argument is a phantom index:
    views of different character types are different types. *)

Record basic_string_view (char_t : cpp_type) : Type := mk_view {
  m_pData : list Z;
  m_nSize : nat
}.

Arguments mk_view {char_t} m_pData m_nSize.
Arguments m_pData {char_t} _.
Arguments m_nSize {char_t} _.

(** [p[i]] on a raw pointer. *)
Definition deref (p : list Z) (i : nat) : outcome Z :=
  match p !! i with
  | Some c => Returns c
  | None => Undefined
  end.

(** The range [m_pData, m_pData + m_nSize) lies inside the array. *)
Definition well_formed {char_t} (v : basic_string_view char_t) : Prop :=
  m_nSize v <= length (m_pData v).

(** The view [std::basic_string_view<char_t>()] of C++17 and later: a null
    pointer and length zero. *)
Definition std_empty_view (char_t : cpp_type) : basic_string_view char_t :=
  mk_view [] 0.

(** ** The fallback [utf42::basic_string_view] (C++14 and C++11) *)

Module View.

Section Members.
Context {char_t : cpp_type}.

(** [basic_string_view() : m_pData(""), m_nSize(0)]. The literal [""] is
    an array of [const char]; it converts to [pointer], which is
    [const char_t *], when [char_t] is [char] with or without qualifiers
    ([const char_t] is then [const char] or [const volatile char]), and
    for no other type. *)
Definition ctor_default : outcome (basic_string_view char_t) :=
  match unqualified char_t with
  | char => Returns (mk_view [0%Z] 0)
  | _ => Rejected no_conversion
  end.

(** [str_len]: the loop [while (pStr[nLength] != '\0') ++nLength]. The
    first argument is the array from [pStr + nLength] onward. *)
Fixpoint str_len_from (rest : list Z) (nLength : nat) : outcome nat :=
  match rest with
  | [] => Undefined
  | c :: rest' =>
      if bool_decide (c ≠ 0%Z) then str_len_from rest' (S nLength)
      else Returns nLength
  end.

Definition str_len (pStr : list Z) : outcome nat := str_len_from pStr 0.

(** C++14: [basic_string_view(const char_t *pStr)]. *)
Definition ctor_cstr (pStr : list Z) : outcome (basic_string_view char_t) :=
  nLength ← str_len pStr; Returns (mk_view pStr nLength).

(** C++14: [basic_string_view(const char_t *pStr, size_type nLength)]. *)
Definition ctor_ptr_len (pStr : list Z) (nLength : nat)
  : outcome (basic_string_view char_t) :=
  Returns (mk_view pStr nLength).

(** C++11: [template<N> basic_string_view(const char_t (&pStr)[N])] with
    [static_assert(N > 0, ...)]. *)
Definition ctor_array (pStr : list Z) : outcome (basic_string_view char_t) :=
  let N := length pStr in
  if bool_decide (N > 0) then Returns (mk_view pStr (N - 1))
  else Rejected (static_assertion_failed
                   (Some "basic_string_view: invalid length"%string)).

Definition operator_index (v : basic_string_view char_t) (pos : nat)
  : outcome Z :=
  if bool_decide (pos >= m_nSize v)
  then Throws (out_of_range "basic_string_view: index out of range")
  else deref (m_pData v) pos.

Definition at_ (v : basic_string_view char_t) (pos : nat) : outcome Z :=
  if bool_decide (pos >= m_nSize v)
  then Throws (out_of_range "basic_string_view: index out of range")
  else deref (m_pData v) pos.

Definition data (v : basic_string_view char_t) : list Z := m_pData v.

Definition operator_bool (v : basic_string_view char_t) : bool :=
  bool_decide (m_nSize v > 0).

Definition empty (v : basic_string_view char_t) : bool :=
  bool_decide (m_nSize v = 0).

(** The loop of [operator==], entered at index [i] with [n] iterations
    left. *)
Fixpoint eq_loop (p q : list Z) (i n : nat) : outcome bool :=
  match n with
  | O => Returns true
  | S n' =>
      x ← deref p i;
      y ← deref q i;
      if bool_decide (x ≠ y) then Returns false
      else eq_loop p q (S i) n'
  end.

Definition operator_eq (v other : basic_string_view char_t) : outcome bool :=
  if bool_decide (m_nSize v ≠ m_nSize other) then Returns false
  else eq_loop (m_pData v) (m_pData other) 0 (m_nSize v).

Definition operator_ne (v other : basic_string_view char_t) : outcome bool :=
  negb <$> operator_eq v other.

Definition length (v : basic_string_view char_t) : nat := m_nSize v.

End Members.

End View.

(** ** C++20: [poly_enc] with five views, [visit] constrained by [CharType] *)

Module Cpp20.

(** [is_char<T>]: a disjunction of five [std::is_same_v] tests. *)
Definition is_char (T : cpp_type) : bool :=
  bool_decide (T = char) || bool_decide (T = wchar_t) ||
  bool_decide (T = char8_t) || bool_decide (T = char16_t) ||
  bool_decide (T = char32_t).

Record poly_enc : Type := mk_poly_enc {
  TXT_CHAR : basic_string_view char;
  TXT_CHAR_W : basic_string_view wchar_t;
  TXT_CHAR_8 : basic_string_view char8_t;
  TXT_CHAR_16 : basic_string_view char16_t;
  TXT_CHAR_32 : basic_string_view char32_t
}.

(** The constructor [poly_enc(txt_char, ..., txt_char_32)]: each member is
    initialised from the parameter of the same position. *)
Definition poly_enc_ctor
    (txt_char : basic_string_view char)
    (txt_char_w : basic_string_view wchar_t)
    (txt_char_8 : basic_string_view char8_t)
    (txt_char_16 : basic_string_view char16_t)
    (txt_char_32 : basic_string_view char32_t) : poly_enc :=
  {| TXT_CHAR := txt_char;
     TXT_CHAR_W := txt_char_w;
     TXT_CHAR_8 := txt_char_8;
     TXT_CHAR_16 := txt_char_16;
     TXT_CHAR_32 := txt_char_32 |}.

(** The body of [visit]: the [if constexpr] chain on [char_t], with its
    final [else] that returns an empty view. *)
Definition visit_body (char_t : cpp_type) (this : poly_enc)
  : basic_string_view char_t :=
  match char_t with
  | char => TXT_CHAR this
  | wchar_t => TXT_CHAR_W this
  | char8_t => TXT_CHAR_8 this
  | char16_t => TXT_CHAR_16 this
  | char32_t => TXT_CHAR_32 this
  | _ => std_empty_view _
  end.

(** [template<CharType char_t> ... visit() const noexcept]. *)
Definition visit (char_t : cpp_type) (this : poly_enc)
  : outcome (basic_string_view char_t) :=
  if is_char char_t then Returns (visit_body char_t this)
  else Rejected constraint_not_satisfied.

(** [template<CharType char_t> consteval ... visit_poly_enc(const poly_enc &)]. *)
Definition visit_poly_enc (char_t : cpp_type) (oPolyEnv : poly_enc)
  : outcome (basic_string_view char_t) :=
  if is_char char_t then visit char_t oPolyEnv
  else Rejected constraint_not_satisfied.

(** *** The same members over objects in storage

    [visit] reads its object through [this] and [visit_poly_enc] receives
    a reference. Here objects live in a store indexed by address, and each
    call returns its result together with the store it leaves behind. *)

Definition read {A : Type} (member : poly_enc -> A) (this : nat)
    (st : gmap nat poly_enc) : outcome (A * gmap nat poly_enc) :=
  match st !! this with
  | Some obj => Returns (member obj, st)
  | None => Undefined
  end.

Definition visit_at (char_t : cpp_type) (this : nat) (st : gmap nat poly_enc)
  : outcome (basic_string_view char_t * gmap nat poly_enc) :=
  if is_char char_t then
    match char_t with
    | char => read TXT_CHAR this st
    | wchar_t => read TXT_CHAR_W this st
    | char8_t => read TXT_CHAR_8 this st
    | char16_t => read TXT_CHAR_16 this st
    | char32_t => read TXT_CHAR_32 this st
    | _ => Returns (std_empty_view _, st)
    end
  else Rejected constraint_not_satisfied.

Definition visit_poly_enc_at (char_t : cpp_type) (oPolyEnv : nat)
    (st : gmap nat poly_enc)
  : outcome (basic_string_view char_t * gmap nat poly_enc) :=
  if is_char char_t then visit_at char_t oPolyEnv st
  else Rejected constraint_not_satisfied.

End Cpp20.

(** ** C++17: [poly_enc] with four views, [visit] guarded by a [static_assert] *)

Module Cpp17.

Record poly_enc : Type := mk_poly_enc {
  TXT_CHAR : basic_string_view char;
  TXT_CHAR_W : basic_string_view wchar_t;
  TXT_CHAR_16 : basic_string_view char16_t;
  TXT_CHAR_32 : basic_string_view char32_t
}.

Definition poly_enc_ctor
    (txt_char : basic_string_view char)
    (txt_char_w : basic_string_view wchar_t)
    (txt_char_16 : basic_string_view char16_t)
    (txt_char_32 : basic_string_view char32_t) : poly_enc :=
  {| TXT_CHAR := txt_char;
     TXT_CHAR_W := txt_char_w;
     TXT_CHAR_16 := txt_char_16;
     TXT_CHAR_32 := txt_char_32 |}.

(** The [if constexpr] chain of [visit]. *)
Definition visit_body (char_t : cpp_type) (this : poly_enc)
  : basic_string_view char_t :=
  match char_t with
  | char => TXT_CHAR this
  | wchar_t => TXT_CHAR_W this
  | char16_t => TXT_CHAR_16 this
  | char32_t => TXT_CHAR_32 this
  | _ => std_empty_view _
  end.

(** The condition of the [static_assert] that closes the body of [visit]. *)
Definition assert_char_type (char_t : cpp_type) : bool :=
  bool_decide (char_t = char) || bool_decide (char_t = wchar_t) ||
  bool_decide (char_t = char16_t) || bool_decide (char_t = char32_t).

(** [template<typename char_t> ... visit() const noexcept]: instantiating
    the body evaluates the [static_assert] whatever branch was taken. *)
Definition visit (char_t : cpp_type) (this : poly_enc)
  : outcome (basic_string_view char_t) :=
  if assert_char_type char_t then Returns (visit_body char_t this)
  else Rejected (static_assertion_failed None).

Definition visit_poly_enc (char_t : cpp_type) (oPolyEnv : poly_enc)
  : outcome (basic_string_view char_t) :=
  visit char_t oPolyEnv.

End Cpp17.

(** ** C++14 and C++11: [poly_enc] with four fallback views, [visit] by
  explicit specialisation *)

Module Cpp14.

Record poly_enc : Type := mk_poly_enc {
  TXT_CHAR : basic_string_view char;
  TXT_CHAR_W : basic_string_view wchar_t;
  TXT_CHAR_16 : basic_string_view char16_t;
  TXT_CHAR_32 : basic_string_view char32_t
}.

Definition poly_enc_ctor
    (txt_char : basic_string_view char)
    (txt_char_w : basic_string_view wchar_t)
    (txt_char_16 : basic_string_view char16_t)
    (txt_char_32 : basic_string_view char32_t) : poly_enc :=
  {| TXT_CHAR := txt_char;
     TXT_CHAR_W := txt_char_w;
     TXT_CHAR_16 := txt_char_16;
     TXT_CHAR_32 := txt_char_32 |}.

(** The four specialisations of [poly_enc::visit], and the primary
    template, whose body is [static_assert(false, ...)] followed by
    [return {nullptr}]. The assertion is taken to fire when the primary
    template is instantiated, that is for every [char_t] without a
    specialisation. *)
Definition visit (char_t : cpp_type) (this : poly_enc)
  : outcome (basic_string_view char_t) :=
  match char_t with
  | char => Returns (TXT_CHAR this)
  | wchar_t => Returns (TXT_CHAR_W this)
  | char16_t => Returns (TXT_CHAR_16 this)
  | char32_t => Returns (TXT_CHAR_32 this)
  | _ => Rejected (static_assertion_failed
                     (Some "Unsupported character type"%string))
  end.

Definition visit_poly_enc (char_t : cpp_type) (oPolyEnv : poly_enc)
  : outcome (basic_string_view char_t) :=
  visit char_t oPolyEnv.

End Cpp14.

(** The character types the header supports at C++20. *)
Definition supported_types : list cpp_type :=
  [char; wchar_t; char8_t; char16_t; char32_t].

(** ** Arrays handed to the literal constructors *)

(** The array has extent [N > 0] and its only null character is at index
    [N - 1]. *)
Definition only_null_is_last (pStr : list Z) : Prop :=
  0 < length pStr /\
  forall i, pStr !! i = Some 0%Z <-> S i = length pStr.

(** The array has a null character at an index before [N - 1]. *)
Definition has_embedded_null (pStr : list Z) : Prop :=
  exists k, S k < length pStr /\ pStr !! k = Some 0%Z.

(** ** The operations of the core, as calls

    One constructor per operation: construction and selection on [poly_enc]
    at each standard level, and the constructors and members of the fallback
    view. ([str] is left out: it allocates a [std::basic_string].) *)

Inductive value : Type :=
| val_view {char_t : cpp_type} (v : basic_string_view char_t)
| val_size (n : nat)
| val_char (c : Z)
| val_pointer (p : list Z)
| val_bool (b : bool)
| val_poly_enc20 (p : Cpp20.poly_enc)
| val_poly_enc17 (p : Cpp17.poly_enc)
| val_poly_enc14 (p : Cpp14.poly_enc).

Inductive call : Type :=
| call_poly_enc20 (v1 : basic_string_view char) (v2 : basic_string_view wchar_t)
    (v3 : basic_string_view char8_t) (v4 : basic_string_view char16_t)
    (v5 : basic_string_view char32_t)
| call_visit20 (char_t : cpp_type) (p : Cpp20.poly_enc)
| call_visit_poly_enc20 (char_t : cpp_type) (p : Cpp20.poly_enc)
| call_poly_enc17 (v1 : basic_string_view char) (v2 : basic_string_view wchar_t)
    (v4 : basic_string_view char16_t) (v5 : basic_string_view char32_t)
| call_visit17 (char_t : cpp_type) (p : Cpp17.poly_enc)
| call_visit_poly_enc17 (char_t : cpp_type) (p : Cpp17.poly_enc)
| call_poly_enc14 (v1 : basic_string_view char) (v2 : basic_string_view wchar_t)
    (v4 : basic_string_view char16_t) (v5 : basic_string_view char32_t)
| call_visit14 (char_t : cpp_type) (p : Cpp14.poly_enc)
| call_visit_poly_enc14 (char_t : cpp_type) (p : Cpp14.poly_enc)
| call_ctor_default (char_t : cpp_type)
| call_ctor_cstr (char_t : cpp_type) (pStr : list Z)
| call_ctor_ptr_len (char_t : cpp_type) (pStr : list Z) (nLength : nat)
| call_ctor_array (char_t : cpp_type) (pStr : list Z)
| call_length {char_t : cpp_type} (v : basic_string_view char_t)
| call_operator_index {char_t : cpp_type} (v : basic_string_view char_t) (pos : nat)
| call_at {char_t : cpp_type} (v : basic_string_view char_t) (pos : nat)
| call_data {char_t : cpp_type} (v : basic_string_view char_t)
| call_operator_bool {char_t : cpp_type} (v : basic_string_view char_t)
| call_empty {char_t : cpp_type} (v : basic_string_view char_t)
| call_operator_eq {char_t : cpp_type} (v other : basic_string_view char_t)
| call_operator_ne {char_t : cpp_type} (v other : basic_string_view char_t).

Definition run (c : call) : outcome value :=
  match c with
  | call_poly_enc20 v1 v2 v3 v4 v5 =>
      Returns (val_poly_enc20 (Cpp20.poly_enc_ctor v1 v2 v3 v4 v5))
  | call_visit20 char_t p => val_view <$> Cpp20.visit char_t p
  | call_visit_poly_enc20 char_t p => val_view <$> Cpp20.visit_poly_enc char_t p
  | call_poly_enc17 v1 v2 v4 v5 =>
      Returns (val_poly_enc17 (Cpp17.poly_enc_ctor v1 v2 v4 v5))
  | call_visit17 char_t p => val_view <$> Cpp17.visit char_t p
  | call_visit_poly_enc17 char_t p => val_view <$> Cpp17.visit_poly_enc char_t p
  | call_poly_enc14 v1 v2 v4 v5 =>
      Returns (val_poly_enc14 (Cpp14.poly_enc_ctor v1 v2 v4 v5))
  | call_visit14 char_t p => val_view <$> Cpp14.visit char_t p
  | call_visit_poly_enc14 char_t p => val_view <$> Cpp14.visit_poly_enc char_t p
  | call_ctor_default char_t => val_view <$> View.ctor_default (char_t:=char_t)
  | call_ctor_cstr char_t pStr => val_view <$> View.ctor_cstr (char_t:=char_t) pStr
  | call_ctor_ptr_len char_t pStr nLength =>
      val_view <$> View.ctor_ptr_len (char_t:=char_t) pStr nLength
  | call_ctor_array char_t pStr => val_view <$> View.ctor_array (char_t:=char_t) pStr
  | call_length v => Returns (val_size (View.length v))
  | call_operator_index v pos => val_char <$> View.operator_index v pos
  | call_at v pos => val_char <$> View.at_ v pos
  | call_data v => Returns (val_pointer (View.data v))
  | call_operator_bool v => Returns (val_bool (View.operator_bool v))
  | call_empty v => Returns (val_bool (View.empty v))
  | call_operator_eq v other => val_bool <$> View.operator_eq v other
  | call_operator_ne v other => val_bool <$> View.operator_ne v other
  end.

(** What a pointer argument or a view must satisfy for its reads to stay
    inside the array: a C string holds a null character, and a view's range
    lies in its array. *)
Definition call_in_bounds (c : call) : Prop :=
  match c with
  | call_ctor_cstr _ pStr => exists k, pStr !! k = Some 0%Z
  | @call_operator_index _ v _ | @call_at _ v _ => well_formed v
  | @call_operator_eq _ v other | @call_operator_ne _ v other =>
      well_formed v /\ well_formed other
  | _ => True
  end.

(** No path of the call ends in an exception. *)
Definition never_throws (c : call) : Prop := forall e, run c <> Throws e.

(** The call is [v[pos]] or [v.at(pos)] with [pos] past the view. *)
Definition indexes_out_of_range (c : call) : Prop :=
  match c with
  | @call_operator_index _ v pos | @call_at _ v pos => pos >= View.length v
  | _ => False
  end.

(** ** Example data *)

(** The array of the literal ["Hello"]: five characters and the terminator. *)
Definition hello : list Z := [72; 101; 108; 108; 111; 0]%Z.

(** An array with a null character before its last position, as the literal
    ["ab\0cd"] has. *)
Definition ab_nul_cd : list Z := [97; 98; 0; 99; 100; 0]%Z.

Definition hello_view (char_t : cpp_type) : basic_string_view char_t :=
  mk_view hello 5.

Definition hello20 : Cpp20.poly_enc :=
  Cpp20.poly_enc_ctor (hello_view char) (hello_view wchar_t)
    (hello_view char8_t) (hello_view char16_t) (hello_view char32_t).

(** The array of the literal ["Hello!"], and views of its first five
    characters: equal to the views of ["Hello"], in another array. *)
Definition hello_bang : list Z := [72; 101; 108; 108; 111; 33; 0]%Z.

Definition hello_in_bang (char_t : cpp_type) : basic_string_view char_t :=
  mk_view hello_bang 5.

Definition hello20_in_bang : Cpp20.poly_enc :=
  Cpp20.poly_enc_ctor (hello_in_bang char) (hello_in_bang wchar_t)
    (hello_in_bang char8_t) (hello_in_bang char16_t) (hello_in_bang char32_t).

Definition hello17 : Cpp17.poly_enc :=
  Cpp17.poly_enc_ctor (hello_view char) (hello_view wchar_t)
    (hello_view char16_t) (hello_view char32_t).

Definition hello14 : Cpp14.poly_enc :=
  Cpp14.poly_enc_ctor (hello_view char) (hello_view wchar_t)
    (hello_view char16_t) (hello_view char32_t).

(** ** [str()] of the fallback view

    [str()] is [std::basic_string<char_t>(m_pData, m_nSize)]. The constructor
    of the standard string is not part of the header; it is a parameter
    here, with the part of its contract that the proofs use: when it returns
    for a range that lies inside the array, the string holds the first
    [count] characters. *)

Definition str {char_t : cpp_type}
    (basic_string : list Z -> nat -> outcome (list Z))
    (v : basic_string_view char_t) : outcome (list Z) :=
  basic_string (m_pData v) (m_nSize v).

Definition basic_string_contract
    (basic_string : list Z -> nat -> outcome (list Z)) : Prop :=
  forall (s : list Z) (count : nat) (r : list Z),
    count <= length s ->
    basic_string s count = Returns r -> r = take count s.

(** A constructor that meets the contract and always finds storage. *)
Definition basic_string_copy (s : list Z) (count : nat) : outcome (list Z) :=
  if bool_decide (count <= length s) then Returns (take count s)
  else Undefined.

(** ** The macros [cons_poly_enc] and [make_poly_enc] at C++14 and C++11

    The compiler turns a literal [lit] into one array per prefix; the macros
    paste the prefixes and hand the arrays to [poly_enc]. The arrays are the
    input here. Below C++20 the macros use [lit], [L##lit], [u##lit] and
    [U##lit]; each array becomes a fallback view by the converting
    constructor of its level. *)

Record literal : Type := mk_literal {
  lit : list Z;
  L_lit : list Z;
  u8_lit : list Z;
  u_lit : list Z;
  U_lit : list Z
}.

(** The array a literal provides for a character type. *)
Definition literal_array (char_t : cpp_type) (l : literal) : list Z :=
  match char_t with
  | char => lit l
  | wchar_t => L_lit l
  | char8_t => u8_lit l
  | char16_t => u_lit l
  | char32_t => U_lit l
  | _ => []
  end.

(** The character types [poly_enc] holds below C++20. *)
Definition legacy_types : list cpp_type := [char; wchar_t; char16_t; char32_t].

Module Macros14.

(** [utf42::poly_enc{lit, L##lit, u##lit, U##lit}] at C++14: each array
    decays to a pointer and is converted by
    [basic_string_view(const char_t *pStr)]. *)
Definition cons_poly_enc (l : literal) : outcome Cpp14.poly_enc :=
  txt_char ← View.ctor_cstr (lit l);
  txt_char_w ← View.ctor_cstr (L_lit l);
  txt_char_16 ← View.ctor_cstr (u_lit l);
  txt_char_32 ← View.ctor_cstr (U_lit l);
  Returns (Cpp14.poly_enc_ctor txt_char txt_char_w txt_char_16 txt_char_32).

(** [utf42::visit_poly_enc<char_t>(utf42::poly_enc{...})]. *)
Definition make_poly_enc (char_t : cpp_type) (l : literal)
  : outcome (basic_string_view char_t) :=
  oPolyEnv ← cons_poly_enc l; Cpp14.visit_poly_enc char_t oPolyEnv.

End Macros14.

Module Macros11.

(** [utf42::poly_enc{lit, L##lit, u##lit, U##lit}] at C++11: each array is
    converted by [basic_string_view(const char_t (&)[N])]. *)
Definition cons_poly_enc (l : literal) : outcome Cpp14.poly_enc :=
  txt_char ← View.ctor_array (lit l);
  txt_char_w ← View.ctor_array (L_lit l);
  txt_char_16 ← View.ctor_array (u_lit l);
  txt_char_32 ← View.ctor_array (U_lit l);
  Returns (Cpp14.poly_enc_ctor txt_char txt_char_w txt_char_16 txt_char_32).

Definition make_poly_enc (char_t : cpp_type) (l : literal)
  : outcome (basic_string_view char_t) :=
  oPolyEnv ← cons_poly_enc l; Cpp14.visit_poly_enc char_t oPolyEnv.

End Macros11.

(** ** [char8_to_char] of the test and example programs

    UTF-8 code units are bytes, [0 <= b < 256]. Whether plain [char] is
    signed is implementation-defined, so it is a parameter. *)

Module Char8.

Definition sizeof_char : nat := 1.
Definition sizeof_char8_t : nat := 1.

Section Platform.
Variable char_is_signed : bool.

(** The [char] whose object representation is the byte [b]: what
    [std::memcpy] leaves in a [char]. *)
Definition char_of_byte (b : Z) : Z :=
  if char_is_signed && bool_decide (128 <= b)%Z then (b - 256)%Z else b.

(** [static_cast<char>(c)]: the value congruent to [c] modulo [2^8] in the
    range of [char]. *)
Definition static_cast_char (c : Z) : Z :=
  if char_is_signed then ((c + 128) `mod` 256 - 128)%Z else (c `mod` 256)%Z.

(** [std::memcpy(dst, src, count)] between arrays of one-byte elements. *)
Definition memcpy (dst src : list Z) (count : nat) : outcome (list Z) :=
  if bool_decide (count <= length src /\ count <= length dst)
  then Returns ((char_of_byte <$> take count src) ++ drop count dst)
  else Undefined.

(** The loop [for (i = 0; i < sText.length(); ++i) sResult[i] =
    static_cast<char>(sText[i])], entered at index [i] with [n] iterations
    left. *)
Fixpoint cast_loop (sText : basic_string_view char8_t) (sResult : list Z)
    (i n : nat) : outcome (list Z) :=
  match n with
  | O => Returns sResult
  | S n' =>
      c ← deref (m_pData sText) i;
      cast_loop sText (<[i := static_cast_char c]> sResult) (S i) n'
  end.

Definition char8_to_char (sText : basic_string_view char8_t)
  : outcome (list Z) :=
  let sResult := replicate (m_nSize sText) 0%Z in
  if bool_decide (sizeof_char = sizeof_char8_t)
  then memcpy sResult (m_pData sText) (m_nSize sText * sizeof_char)
  else cast_loop sText sResult 0 (m_nSize sText).

End Platform.

(** Every code unit of the view is a byte. *)
Definition bytes (sText : basic_string_view char8_t) : Prop :=
  forall i c, i < m_nSize sText -> m_pData sText !! i = Some c ->
    (0 <= c < 256)%Z.

End Char8.

(** The bytes of the UTF-8 literal ["hé"] and its terminator. *)
Definition h_e_acute : list Z := [104; 195; 169; 0]%Z.

Definition hello_literal : literal :=
  mk_literal hello hello hello hello hello.

Definition ab_nul_cd_literal : literal :=
  mk_literal ab_nul_cd ab_nul_cd ab_nul_cd ab_nul_cd ab_nul_cd.

(** ** The definitions on concrete inputs *)

Example str_len_hello : View.str_len hello = Returns 5.
Proof. reflexivity. Qed.

Example str_len_stops_at_first_null : View.str_len ab_nul_cd = Returns 2.
Proof. reflexivity. Qed.

Example str_len_unterminated : View.str_len [72; 101]%Z = Undefined.
Proof. reflexivity. Qed.

Example ctor_array_hello :
  View.ctor_array (char_t:=char) hello = Returns (hello_view char).
Proof. reflexivity. Qed.

Example ctor_array_keeps_embedded_null :
  View.ctor_array (char_t:=char16_t) ab_nul_cd = Returns (mk_view ab_nul_cd 5).
Proof. reflexivity. Qed.

Example ctor_default_const_char :
  View.ctor_default (char_t:=qualified cv_const char) = Returns (mk_view [0%Z] 0).
Proof. reflexivity. Qed.

Example ctor_default_wchar_t :
  View.ctor_default (char_t:=wchar_t) = Rejected no_conversion.
Proof. reflexivity. Qed.

Example operator_eq_views_in_two_arrays :
  View.operator_eq (hello_view char) (hello_in_bang char) = Returns true.
Proof. reflexivity. Qed.

Example at_hello_4 : View.at_ (hello_view char) 4 = Returns 111%Z.
Proof. reflexivity. Qed.

Example operator_eq_hello_ab :
  View.operator_eq (hello_view char) (mk_view ab_nul_cd 5) = Returns false.
Proof. reflexivity. Qed.

Example operator_eq_reads_past_the_array :
  View.operator_eq (mk_view [72]%Z 2 : basic_string_view char)
                   (mk_view [72]%Z 2) = Undefined.
Proof. reflexivity. Qed.

Example visit20_char16_hello :
  Cpp20.visit char16_t hello20 = Returns (hello_view char16_t).
Proof. reflexivity. Qed.

Example visit14_char8 :
  Cpp14.visit char8_t hello14 =
    Rejected (static_assertion_failed (Some "Unsupported character type"%string)).
Proof. reflexivity. Qed.

(** ** Reads and loops of the fallback view *)

Ltac unfold_outcome :=
  unfold mbind, outcome_bind, fmap, outcome_fmap, mret, outcome_ret in *.

Lemma deref_Returns (p : list Z) (i : nat) (c : Z) :
  deref p i = Returns c <-> p !! i = Some c.
Proof.
  unfold deref. destruct (p !! i) as [x|]; split; intros H;
    try discriminate; congruence.
Qed.

Lemma deref_in_range (p : list Z) (i : nat) :
  i < length p -> exists c, p !! i = Some c /\ deref p i = Returns c.
Proof.
  intros Hi. destruct (lookup_lt_is_Some_2 p i Hi) as [c Hc].
  exists c. split; [exact Hc | by apply deref_Returns].
Qed.

Lemma deref_never_throws (p : list Z) (i : nat) (e : exception) :
  deref p i <> Throws e.
Proof. unfold deref. by destruct (p !! i). Qed.

(** [eq_loop] answers [true] exactly when both arrays can be read, and hold
    the same character, at each of the [n] indices from [i] on. *)
Lemma eq_loop_true (p q : list Z) (n : nat) : forall i,
  View.eq_loop p q i n = Returns true <->
  forall k, i <= k < i + n -> exists c, p !! k = Some c /\ q !! k = Some c.
Proof.
  induction n as [|n IH]; intros i; simpl.
  - split; [intros _ k Hk; lia | done].
  - unfold_outcome. unfold deref at 1 2.
    destruct (p !! i) as [x|] eqn:Hp.
    2:{ split; [done | intros H]. destruct (H i) as (c & Hc & _); [lia|].
        congruence. }
    destruct (q !! i) as [y|] eqn:Hq.
    2:{ split; [done | intros H]. destruct (H i) as (c & _ & Hc); [lia|].
        congruence. }
    case_bool_decide as Hxy.
    + split; [done | intros H]. destruct (H i) as (c & Hc1 & Hc2); [lia|].
      congruence.
    + rewrite IH. split.
      * intros H k Hk. destruct (decide (k = i)) as [->|Hne].
        -- exists x. split; [done|]. rewrite Hq. f_equal.
           by destruct (decide (x = y)).
        -- apply H. lia.
      * intros H k Hk. apply H. lia.
Qed.

(** On arrays long enough for the [n] reads, [eq_loop] returns. *)
Lemma eq_loop_returns (p q : list Z) (n : nat) : forall i,
  i + n <= length p -> i + n <= length q ->
  exists r, View.eq_loop p q i n = Returns r.
Proof.
  induction n as [|n IH]; intros i Hp Hq; simpl.
  - by exists true.
  - destruct (deref_in_range p i) as (x & _ & ->); [lia|].
    destruct (deref_in_range q i) as (y & _ & ->); [lia|].
    unfold_outcome. case_bool_decide.
    + by exists false.
    + apply IH; lia.
Qed.

Lemma eq_loop_never_throws (p q : list Z) (n : nat) : forall i e,
  View.eq_loop p q i n <> Throws e.
Proof.
  induction n as [|n IH]; intros i e; simpl; [done|].
  unfold_outcome. unfold deref.
  destruct (p !! i); [|done]. destruct (q !! i); [|done].
  case_bool_decide; [done | apply IH].
Qed.

(** [str_len_from] returns the start count plus the offset of the first
    null character, having read only non-null characters before it. *)
Lemma str_len_from_Returns (rest : list Z) : forall nLength m,
  View.str_len_from rest nLength = Returns m <->
  exists k, m = nLength + k /\ rest !! k = Some 0%Z /\
            forall j, j < k -> exists c, rest !! j = Some c /\ c <> 0%Z.
Proof.
  induction rest as [|c rest IH]; intros nLength m; simpl.
  - split; [done | intros (k & _ & Hk & _); done].
  - case_bool_decide as Hc.
    + rewrite IH. split.
      * intros (k & -> & Hk & Hbefore). exists (S k).
        split; [lia|]. split; [done|].
        intros [|j] Hj; simpl; [by exists c | apply Hbefore; lia].
      * intros (k & -> & Hk & Hbefore). destruct k as [|k].
        { simpl in Hk. congruence. }
        exists k. split; [lia|]. split; [done|].
        intros j Hj. apply (Hbefore (S j)). lia.
    + assert (c = 0%Z) as -> by (by destruct (decide (c = 0%Z))).
      split.
      * intros [= <-]. exists 0. split; [lia|]. split; [done|]. lia.
      * intros (k & -> & Hk & Hbefore). destruct k as [|k].
        { f_equal. lia. }
        destruct (Hbefore 0) as (c' & Hc' & Hne); [lia|].
        simpl in Hc'. congruence.
Qed.

Lemma str_len_from_never_throws (rest : list Z) : forall nLength e,
  View.str_len_from rest nLength <> Throws e.
Proof.
  induction rest as [|c rest IH]; intros nLength e; simpl; [done|].
  case_bool_decide; [apply IH | done].
Qed.

Lemma operator_eq_true {char_t} (a b : basic_string_view char_t) :
  View.operator_eq a b = Returns true <->
  m_nSize a = m_nSize b /\
  forall i, i < m_nSize a ->
    exists c, m_pData a !! i = Some c /\ m_pData b !! i = Some c.
Proof.
  unfold View.operator_eq. case_bool_decide as Hsz.
  - split; [done | intros [? _]; done].
  - rewrite eq_loop_true.
    assert (m_nSize a = m_nSize b) as Heq by lia.
    split.
    + intros H. split; [done|]. intros i Hi. apply H. lia.
    + intros [_ H] k Hk. apply H. lia.
Qed.

Lemma operator_eq_returns {char_t} (a b : basic_string_view char_t) :
  well_formed a -> well_formed b ->
  exists r, View.operator_eq a b = Returns r.
Proof.
  unfold well_formed, View.operator_eq. intros Ha Hb.
  case_bool_decide as Hsz; [by exists false|].
  apply eq_loop_returns; lia.
Qed.

(** On well-formed views, agreement of the lookups is agreement of the
    characters read. *)
Lemma agree_lookup {char_t} (a b : basic_string_view char_t) :
  well_formed a ->
  (forall i, i < m_nSize a -> m_pData a !! i = m_pData b !! i) <->
  (forall i, i < m_nSize a ->
     exists c, m_pData a !! i = Some c /\ m_pData b !! i = Some c).
Proof.
  unfold well_formed. intros Ha. split; intros H i Hi.
  - destruct (lookup_lt_is_Some_2 (m_pData a) i) as [c Hc]; [lia|].
    exists c. split; [done|]. by rewrite <- H.
  - destruct (H i Hi) as (c & -> & ->). done.
Qed.

Lemma operator_eq_refl {char_t} (a : basic_string_view char_t) :
  well_formed a -> View.operator_eq a a = Returns true.
Proof.
  intros Ha. apply operator_eq_true. split; [done|].
  by apply (agree_lookup a a).
Qed.

Lemma operator_eq_sym_true {char_t} (a b : basic_string_view char_t) :
  View.operator_eq a b = Returns true -> View.operator_eq b a = Returns true.
Proof.
  rewrite !operator_eq_true. intros [Hsz H]. split; [done|].
  intros i Hi. destruct (H i) as (c & ? & ?); [lia|]. by exists c.
Qed.

Lemma operator_eq_trans_true {char_t} (a b c : basic_string_view char_t) :
  View.operator_eq a b = Returns true ->
  View.operator_eq b c = Returns true ->
  View.operator_eq a c = Returns true.
Proof.
  rewrite !operator_eq_true. intros [Hab H1] [Hbc H2]. split; [lia|].
  intros i Hi.
  destruct (H1 i) as (x & Hx1 & Hx2); [lia|].
  destruct (H2 i) as (y & Hy1 & Hy2); [lia|].
  exists x. split; [done|]. congruence.
Qed.

(** The first null character bounds what [str_len_from] reads. *)
Lemma str_len_from_finds_null (rest : list Z) : forall k nLength,
  rest !! k = Some 0%Z ->
  exists m, m <= k /\ View.str_len_from rest nLength = Returns (nLength + m).
Proof.
  induction rest as [|c rest IH]; intros k nLength Hk; simpl; [done|].
  case_bool_decide as Hc.
  - destruct k as [|k]; simpl in Hk; [congruence|].
    destruct (IH k (S nLength) Hk) as (m & Hm & ->).
    exists (S m). split; [lia|]. f_equal. lia.
  - exists 0. split; [lia|]. f_equal. lia.
Qed.

Lemma str_len_only_null_is_last (pStr : list Z) :
  only_null_is_last pStr -> View.str_len pStr = Returns (length pStr - 1).
Proof.
  intros [Hpos Hnull]. unfold View.str_len. apply str_len_from_Returns.
  exists (length pStr - 1). split; [lia|]. split.
  - apply Hnull. lia.
  - intros j Hj.
    destruct (lookup_lt_is_Some_2 pStr j) as [c Hc]; [lia|].
    exists c. split; [done|]. intros ->. apply Hnull in Hc. lia.
Qed.

(** ** Selection on [poly_enc] *)

Lemma is_char_supported (T : cpp_type) :
  Cpp20.is_char T = true <-> T ∈ supported_types.
Proof.
  unfold Cpp20.is_char, supported_types.
  rewrite !orb_true_iff, !bool_decide_eq_true, !elem_of_cons, elem_of_nil.
  tauto.
Qed.

Lemma supported_cases (T : cpp_type) :
  T ∈ supported_types ->
  T = char \/ T = wchar_t \/ T = char8_t \/ T = char16_t \/ T = char32_t.
Proof.
  unfold supported_types. rewrite !elem_of_cons, elem_of_nil. tauto.
Qed.

Lemma unsupported_is_char (T : cpp_type) :
  T ∉ supported_types -> Cpp20.is_char T = false.
Proof.
  intros H. destruct (Cpp20.is_char T) eqn:E; [|done].
  by apply is_char_supported in E.
Qed.

Lemma unsupported_assert_char_type (T : cpp_type) :
  T ∉ supported_types -> Cpp17.assert_char_type T = false.
Proof.
  unfold supported_types. rewrite !not_elem_of_cons.
  intros (? & ? & ? & ? & ? & _). unfold Cpp17.assert_char_type.
  by rewrite !bool_decide_eq_false_2.
Qed.

(** C1: at C++20, for every [poly_enc] value [p] and each of the five
    supported character types, [p.visit<T>()] and [visit_poly_enc<T>(p)]
    return the stored field of [p] that belongs to [T], unchanged:
    [TXT_CHAR] for [char], [TXT_CHAR_W] for [wchar_t], [TXT_CHAR_8] for
    [char8_t], [TXT_CHAR_16] for [char16_t], [TXT_CHAR_32] for [char32_t]. *)
Theorem visit_returns_stored_field (p : Cpp20.poly_enc) :
  (Cpp20.visit char p = Returns (Cpp20.TXT_CHAR p) /\
   Cpp20.visit wchar_t p = Returns (Cpp20.TXT_CHAR_W p) /\
   Cpp20.visit char8_t p = Returns (Cpp20.TXT_CHAR_8 p) /\
   Cpp20.visit char16_t p = Returns (Cpp20.TXT_CHAR_16 p) /\
   Cpp20.visit char32_t p = Returns (Cpp20.TXT_CHAR_32 p)) /\
  (Cpp20.visit_poly_enc char p = Returns (Cpp20.TXT_CHAR p) /\
   Cpp20.visit_poly_enc wchar_t p = Returns (Cpp20.TXT_CHAR_W p) /\
   Cpp20.visit_poly_enc char8_t p = Returns (Cpp20.TXT_CHAR_8 p) /\
   Cpp20.visit_poly_enc char16_t p = Returns (Cpp20.TXT_CHAR_16 p) /\
   Cpp20.visit_poly_enc char32_t p = Returns (Cpp20.TXT_CHAR_32 p)).
Proof. repeat split. Qed.

(** C2: construction followed by selection gives back the argument. For
    every five views [v1] ([char]), [v2] ([wchar_t]), [v3] ([char8_t]),
    [v4] ([char16_t]), [v5] ([char32_t]), selecting with [T] in
    [poly_enc(v1, v2, v3, v4, v5)] yields the view that was passed for [T]. *)
Theorem visit_after_construction
    (v1 : basic_string_view char) (v2 : basic_string_view wchar_t)
    (v3 : basic_string_view char8_t) (v4 : basic_string_view char16_t)
    (v5 : basic_string_view char32_t) :
  let p := Cpp20.poly_enc_ctor v1 v2 v3 v4 v5 in
  (Cpp20.visit char p = Returns v1 /\
   Cpp20.visit wchar_t p = Returns v2 /\
   Cpp20.visit char8_t p = Returns v3 /\
   Cpp20.visit char16_t p = Returns v4 /\
   Cpp20.visit char32_t p = Returns v5) /\
  (Cpp20.visit_poly_enc char p = Returns v1 /\
   Cpp20.visit_poly_enc wchar_t p = Returns v2 /\
   Cpp20.visit_poly_enc char8_t p = Returns v3 /\
   Cpp20.visit_poly_enc char16_t p = Returns v4 /\
   Cpp20.visit_poly_enc char32_t p = Returns v5).
Proof. intros p. subst p. repeat split. Qed.

(** C3, as claimed, fails below C++20: with [unsigned char] for [char_t],
    [visit] and [visit_poly_enc] return no view at all at C++17, C++14 and
    C++11; the instantiation is rejected by a [static_assert]. *)
Lemma unsupported_type_returns_no_view_before_cpp20 :
  let T := other_type "unsigned char" in
  (T ∉ supported_types) /\
  (~ exists v, Cpp17.visit T hello17 = Returns v) /\
  (~ exists v, Cpp17.visit_poly_enc T hello17 = Returns v) /\
  (~ exists v, Cpp14.visit T hello14 = Returns v) /\
  (~ exists v, Cpp14.visit_poly_enc T hello14 = Returns v).
Proof.
  simpl. split.
  - unfold supported_types. rewrite !not_elem_of_cons. repeat split; try done.
    apply not_elem_of_nil.
  - repeat split; intros [v Hv]; discriminate Hv.
Qed.

(** C3, amended: for every type outside the five supported character types,
    requesting a view through [visit] or [visit_poly_enc] fails to compile at
    every standard level: by the [CharType] constraint at C++20, by the
    [static_assert] in [visit] at C++17, and by the [static_assert] of the
    primary template at C++14 and C++11. No level returns an empty view. *)
Theorem unsupported_type_is_rejected (char_t : cpp_type) :
  char_t ∉ supported_types ->
  (forall p, Cpp20.visit char_t p = Rejected constraint_not_satisfied /\
             Cpp20.visit_poly_enc char_t p = Rejected constraint_not_satisfied) /\
  (forall p, Cpp17.visit char_t p = Rejected (static_assertion_failed None) /\
             Cpp17.visit_poly_enc char_t p =
               Rejected (static_assertion_failed None)) /\
  (forall p, Cpp14.visit char_t p =
               Rejected (static_assertion_failed
                           (Some "Unsupported character type"%string)) /\
             Cpp14.visit_poly_enc char_t p =
               Rejected (static_assertion_failed
                           (Some "Unsupported character type"%string))).
Proof.
  intros Hns.
  pose proof (unsupported_is_char _ Hns) as H20.
  pose proof (unsupported_assert_char_type _ Hns) as H17.
  split; [|split]; intros p.
  - unfold Cpp20.visit_poly_enc, Cpp20.visit. by rewrite H20.
  - unfold Cpp17.visit_poly_enc, Cpp17.visit. by rewrite H17.
  - unfold Cpp14.visit_poly_enc, Cpp14.visit.
    destruct char_t; try done; exfalso; apply Hns;
      unfold supported_types; rewrite !elem_of_cons; tauto.
Qed.

Lemma unsupported_type_is_rejected_witness :
  Cpp20.visit (other_type "unsigned char") hello20 =
    Rejected constraint_not_satisfied /\
  Cpp17.visit (other_type "unsigned char") hello17 =
    Rejected (static_assertion_failed None) /\
  Cpp14.visit (other_type "unsigned char") hello14 =
    Rejected (static_assertion_failed (Some "Unsupported character type"%string)).
Proof.
  assert (other_type "unsigned char" ∉ supported_types) as Hns.
  { unfold supported_types. rewrite !not_elem_of_cons. repeat split; try done.
    apply not_elem_of_nil. }
  destruct (unsupported_type_is_rejected (other_type "unsigned char") Hns)
    as (H20 & H17 & H14).
  split; [apply H20 | split; [apply H17 | apply H14]].
Defined.

(** ** Frame and determinism of selection *)

Lemma visit_at_supported (char_t : cpp_type) (this : nat)
    (st : gmap nat Cpp20.poly_enc) (p : Cpp20.poly_enc) :
  st !! this = Some p -> char_t ∈ supported_types ->
  Cpp20.visit_at char_t this st = Returns (Cpp20.visit_body char_t p, st).
Proof.
  intros Hst Hs. unfold Cpp20.visit_at, Cpp20.read.
  destruct (supported_cases _ Hs) as [->|[->|[->|[->| ->]]]];
    simpl; by rewrite Hst.
Qed.

(** C6: a [poly_enc] is not changed by selection. For every object [p] at
    address [this] and every supported character type [T], [p.visit<T>()]
    and [visit_poly_enc<T>(p)] return the view that [visit] selects and
    leave the store as it was, so the object still has the same five fields
    [TXT_CHAR], [TXT_CHAR_W], [TXT_CHAR_8], [TXT_CHAR_16], [TXT_CHAR_32];
    reading any member leaves the store unchanged as well. *)
Theorem visit_leaves_fields_unchanged (char_t : cpp_type) (this : nat)
    (st : gmap nat Cpp20.poly_enc) (p : Cpp20.poly_enc) :
  st !! this = Some p ->
  char_t ∈ supported_types ->
  exists v st',
    Cpp20.visit_at char_t this st = Returns (v, st') /\
    Cpp20.visit_poly_enc_at char_t this st = Returns (v, st') /\
    Cpp20.visit char_t p = Returns v /\
    st' = st /\
    (exists p', st' !! this = Some p' /\
       Cpp20.TXT_CHAR p' = Cpp20.TXT_CHAR p /\
       Cpp20.TXT_CHAR_W p' = Cpp20.TXT_CHAR_W p /\
       Cpp20.TXT_CHAR_8 p' = Cpp20.TXT_CHAR_8 p /\
       Cpp20.TXT_CHAR_16 p' = Cpp20.TXT_CHAR_16 p /\
       Cpp20.TXT_CHAR_32 p' = Cpp20.TXT_CHAR_32 p) /\
    (forall (A : Type) (member : Cpp20.poly_enc -> A),
       Cpp20.read member this st = Returns (member p, st)).
Proof.
  intros Hst Hs. exists (Cpp20.visit_body char_t p), st.
  pose proof (proj2 (is_char_supported char_t) Hs) as Hc.
  split; [by apply visit_at_supported|].
  split.
  { unfold Cpp20.visit_poly_enc_at. rewrite Hc. by apply visit_at_supported. }
  split; [unfold Cpp20.visit; by rewrite Hc|].
  split; [done|].
  split; [by exists p|].
  intros A member. unfold Cpp20.read. by rewrite Hst.
Qed.

Lemma visit_leaves_fields_unchanged_witness :
  exists v st',
    Cpp20.visit_at char16_t 7 {[ 7 := hello20 ]} = Returns (v, st') /\
    st' = {[ 7 := hello20 ]}.
Proof.
  destruct (visit_leaves_fields_unchanged char16_t 7 {[ 7 := hello20 ]} hello20)
    as (v & st' & H1 & _ & _ & H2 & _).
  - reflexivity.
  - unfold supported_types. rewrite !elem_of_cons. tauto.
  - exists v, st'. split; [exact H1 | exact H2].
Defined.

Lemma visit_at_keeps_store (char_t : cpp_type) (this : nat)
    (st st' : gmap nat Cpp20.poly_enc) (v : basic_string_view char_t) :
  Cpp20.visit_at char_t this st = Returns (v, st') -> st' = st.
Proof.
  unfold Cpp20.visit_at, Cpp20.read.
  destruct (Cpp20.is_char char_t); [|discriminate].
  destruct char_t; destruct (st !! this); intros H; try discriminate H;
    by injection H.
Qed.

(** C7: selection is deterministic and depends only on the fields of its
    argument. For every supported character type [T] and any two [poly_enc]
    values, also objects at different addresses of different stores,
    [visit<T>] and [visit_poly_enc<T>] return a view of each; when the five
    fields are pairwise equal views (equal by [==]: the same length and the
    same characters, in whatever arrays) the two views returned are equal
    views; when the fields are identical the views are identical; and a
    selection made earlier, of any type on any object, does not influence
    the result. *)
Theorem selection_depends_only_on_fields (char_t : cpp_type)
    (p1 p2 : Cpp20.poly_enc) (a1 a2 : nat)
    (st1 st2 : gmap nat Cpp20.poly_enc) :
  char_t ∈ supported_types ->
  st1 !! a1 = Some p1 ->
  st2 !! a2 = Some p2 ->
  exists v1 v2,
    (Cpp20.visit char_t p1 = Returns v1 /\
     Cpp20.visit_poly_enc char_t p1 = Returns v1 /\
     fst <$> Cpp20.visit_at char_t a1 st1 = Returns v1 /\
     fst <$> Cpp20.visit_poly_enc_at char_t a1 st1 = Returns v1) /\
    (Cpp20.visit char_t p2 = Returns v2 /\
     Cpp20.visit_poly_enc char_t p2 = Returns v2 /\
     fst <$> Cpp20.visit_at char_t a2 st2 = Returns v2 /\
     fst <$> Cpp20.visit_poly_enc_at char_t a2 st2 = Returns v2) /\
    (View.operator_eq (Cpp20.TXT_CHAR p1) (Cpp20.TXT_CHAR p2) = Returns true ->
     View.operator_eq (Cpp20.TXT_CHAR_W p1) (Cpp20.TXT_CHAR_W p2) = Returns true ->
     View.operator_eq (Cpp20.TXT_CHAR_8 p1) (Cpp20.TXT_CHAR_8 p2) = Returns true ->
     View.operator_eq (Cpp20.TXT_CHAR_16 p1) (Cpp20.TXT_CHAR_16 p2) = Returns true ->
     View.operator_eq (Cpp20.TXT_CHAR_32 p1) (Cpp20.TXT_CHAR_32 p2) = Returns true ->
     View.operator_eq v1 v2 = Returns true) /\
    (Cpp20.TXT_CHAR p1 = Cpp20.TXT_CHAR p2 ->
     Cpp20.TXT_CHAR_W p1 = Cpp20.TXT_CHAR_W p2 ->
     Cpp20.TXT_CHAR_8 p1 = Cpp20.TXT_CHAR_8 p2 ->
     Cpp20.TXT_CHAR_16 p1 = Cpp20.TXT_CHAR_16 p2 ->
     Cpp20.TXT_CHAR_32 p1 = Cpp20.TXT_CHAR_32 p2 ->
     v1 = v2) /\
    (forall (U : cpp_type) (b : nat) (w : basic_string_view U)
            (st' : gmap nat Cpp20.poly_enc),
       Cpp20.visit_at U b st1 = Returns (w, st') ->
       fst <$> Cpp20.visit_at char_t a1 st' = Returns v1 /\
       fst <$> Cpp20.visit_poly_enc_at char_t a1 st' = Returns v1).
Proof.
  intros Hs Hst1 Hst2.
  pose proof (proj2 (is_char_supported char_t) Hs) as Hc.
  exists (Cpp20.visit_body char_t p1), (Cpp20.visit_body char_t p2).
  unfold Cpp20.visit_poly_enc_at, Cpp20.visit_poly_enc, Cpp20.visit.
  rewrite Hc, (visit_at_supported _ _ _ _ Hst1 Hs),
    (visit_at_supported _ _ _ _ Hst2 Hs).
  split; [repeat split|]. split; [repeat split|]. split; [|split].
  - intros H1 H2 H3 H4 H5.
    destruct (supported_cases _ Hs) as [->|[->|[->|[->| ->]]]]; by simpl.
  - intros H1 H2 H3 H4 H5.
    destruct (supported_cases _ Hs) as [->|[->|[->|[->| ->]]]]; by simpl.
  - intros U b w st' Hprev. apply visit_at_keeps_store in Hprev. subst st'.
    rewrite (visit_at_supported _ _ _ _ Hst1 Hs). by split.
Qed.

Lemma selection_depends_only_on_fields_witness :
  exists (v1 v2 : basic_string_view char32_t),
    Cpp20.visit char32_t hello20 = Returns v1 /\
    fst <$> Cpp20.visit_at char32_t 3 {[ 3 := hello20_in_bang; 4 := hello20 ]} =
      Returns v2 /\
    View.operator_eq v1 v2 = Returns true.
Proof.
  destruct (selection_depends_only_on_fields char32_t hello20 hello20_in_bang
              4 3 {[ 4 := hello20 ]} {[ 3 := hello20_in_bang; 4 := hello20 ]})
    as (v1 & v2 & (H1 & _) & (_ & _ & H2 & _) & Heq & _); try reflexivity.
  - unfold supported_types. rewrite !elem_of_cons. tauto.
  - exists v1, v2. split; [exact H1|]. split; [exact H2|].
    apply Heq; reflexivity.
Defined.

(** ** Indexing, equality and construction of the fallback view *)

Lemma operator_index_in_range {char_t : cpp_type}
    (v : basic_string_view char_t) (pos : nat) :
  well_formed v -> pos < m_nSize v ->
  exists c, m_pData v !! pos = Some c /\ View.operator_index v pos = Returns c.
Proof.
  unfold well_formed, View.operator_index. intros Hwf Hpos.
  rewrite bool_decide_eq_false_2 by lia.
  apply deref_in_range. lia.
Qed.

Lemma indexing_Throws {char_t : cpp_type} (v : basic_string_view char_t)
    (pos : nat) (e : exception) :
  (View.operator_index v pos = Throws e <->
   pos >= m_nSize v /\ e = out_of_range "basic_string_view: index out of range") /\
  (View.at_ v pos = Throws e <->
   pos >= m_nSize v /\ e = out_of_range "basic_string_view: index out of range").
Proof.
  unfold View.operator_index, View.at_. case_bool_decide as Hpos.
  - split; (split; [intros [= <-]; done | intros [_ ->]; done]).
  - split; (split; [intros H; by apply deref_never_throws in H | intros [? _]; lia]).
Qed.

(** C8: for every fallback view [v] and every index [pos], [v[pos]] and
    [v.at(pos)] throw [std::out_of_range] if and only if
    [pos >= v.length()], and otherwise return the character at offset [pos]
    of the viewed data: the read [m_pData[pos]], which is a character of the
    array whenever the range of the view lies inside it. *)
Theorem index_and_at_check_bounds {char_t : cpp_type}
    (v : basic_string_view char_t) (pos : nat) :
  (forall e, View.operator_index v pos = Throws e <->
     pos >= View.length v /\
     e = out_of_range "basic_string_view: index out of range") /\
  (forall e, View.at_ v pos = Throws e <->
     pos >= View.length v /\
     e = out_of_range "basic_string_view: index out of range") /\
  (pos < View.length v ->
     View.operator_index v pos = deref (m_pData v) pos /\
     View.at_ v pos = deref (m_pData v) pos) /\
  (well_formed v -> pos < View.length v ->
     exists c, m_pData v !! pos = Some c /\
               View.operator_index v pos = Returns c /\
               View.at_ v pos = Returns c).
Proof.
  unfold View.length.
  split; [intros e; apply indexing_Throws|].
  split; [intros e; apply indexing_Throws|].
  assert (pos < m_nSize v ->
          View.operator_index v pos = deref (m_pData v) pos /\
          View.at_ v pos = deref (m_pData v) pos) as Hread.
  { intros Hlt. unfold View.operator_index, View.at_.
    by rewrite bool_decide_eq_false_2 by lia. }
  split; [exact Hread|].
  intros Hwf Hlt. destruct (Hread Hlt) as [-> ->].
  destruct (deref_in_range (m_pData v) pos) as (c & Hc & Hd);
    [unfold well_formed in Hwf; lia|].
  by exists c.
Qed.

Lemma index_and_at_check_bounds_witness :
  View.operator_index (hello_view char) 1 = Returns 101%Z /\
  View.at_ (hello_view char) 5 =
    Throws (out_of_range "basic_string_view: index out of range").
Proof.
  split.
  - destruct (index_and_at_check_bounds (hello_view char) 1)
      as (_ & _ & _ & H).
    destruct H as (c & Hc & Hi & _); [vm_compute; lia | vm_compute; lia |].
    vm_compute in Hc. injection Hc as <-. exact Hi.
  - destruct (index_and_at_check_bounds (hello_view char) 5)
      as (_ & H & _).
    apply H. split; [vm_compute; lia | reflexivity].
Defined.

(** C9: for every two fallback views [a] and [b], [a == b] returns [true]
    if and only if [a.length() == b.length()] and the characters agree at
    every index [i < a.length()]; [a != b] returns the negation of [a == b];
    and [==] is reflexive, symmetric and transitive. On views whose range
    lies inside their array [==] always returns, and the agreement of
    characters is the agreement of the two arrays at each index. *)
Theorem operator_eq_compares_length_and_characters {char_t : cpp_type}
    (a b : basic_string_view char_t) :
  (View.operator_eq a b = Returns true <->
   View.length a = View.length b /\
   forall i, i < View.length a ->
     exists c, m_pData a !! i = Some c /\ m_pData b !! i = Some c) /\
  View.operator_ne a b = negb <$> View.operator_eq a b /\
  (well_formed a -> well_formed b ->
   exists r,
     View.operator_eq a b = Returns r /\
     View.operator_ne a b = Returns (negb r) /\
     View.operator_eq b a = Returns r /\
     (r = true <->
      View.length a = View.length b /\
      forall i, i < View.length a -> m_pData a !! i = m_pData b !! i)) /\
  (well_formed a -> View.operator_eq a a = Returns true) /\
  (View.operator_eq a b = Returns true -> View.operator_eq b a = Returns true) /\
  (forall c,
     View.operator_eq a b = Returns true ->
     View.operator_eq b c = Returns true ->
     View.operator_eq a c = Returns true).
Proof.
  split; [apply operator_eq_true|].
  split; [done|].
  split; [|split; [apply operator_eq_refl|]].
  - intros Ha Hb.
    destruct (operator_eq_returns a b Ha Hb) as [r Hr].
    destruct (operator_eq_returns b a Hb Ha) as [r' Hr'].
    exists r. split; [done|]. split; [|split].
    + unfold View.operator_ne. by rewrite Hr.
    + rewrite Hr'. f_equal. destruct r, r'; try done.
      * apply operator_eq_sym_true in Hr. congruence.
      * apply operator_eq_sym_true in Hr'. congruence.
    + unfold View.length. rewrite (agree_lookup a b Ha),
        <- operator_eq_true, Hr. split; congruence.
  - split; [apply operator_eq_sym_true|].
    intros c. apply operator_eq_trans_true.
Qed.

Lemma operator_eq_compares_length_and_characters_witness :
  View.operator_eq (hello_view char) (hello_view char) = Returns true /\
  (exists r,
     View.operator_eq (hello_view char) (mk_view ab_nul_cd 5) = Returns r /\
     View.operator_ne (hello_view char) (mk_view ab_nul_cd 5) =
       Returns (negb r)).
Proof.
  destruct (operator_eq_compares_length_and_characters
              (hello_view char) (mk_view ab_nul_cd 5))
    as (_ & _ & Hret & Hrefl & _).
  split.
  - apply Hrefl. vm_compute. lia.
  - destruct Hret as (r & Heq & Hne & _); [vm_compute; lia | vm_compute; lia |].
    exists r. split; [exact Heq | exact Hne].
Defined.

(** C10: the two literal constructors of the fallback view agree on
    null-terminated data without embedded nulls. For every array of extent
    [N] whose only null character is at index [N - 1], the C++11
    array-reference constructor (length [N - 1]) and the C++14 pointer
    constructor (length by [str_len]) produce views of equal length and equal
    characters; for an array with a null character before index [N - 1] the
    two constructors give different lengths. *)
Theorem literal_constructors_agree_without_embedded_null
    (char_t : cpp_type) (pStr : list Z) :
  (only_null_is_last pStr ->
   exists v11 v14 : basic_string_view char_t,
     View.ctor_array pStr = Returns v11 /\
     View.ctor_cstr pStr = Returns v14 /\
     View.length v11 = length pStr - 1 /\
     View.length v14 = View.length v11 /\
     (forall i, i < View.length v11 ->
        exists c, View.operator_index v11 i = Returns c /\
                  View.operator_index v14 i = Returns c) /\
     View.operator_eq v11 v14 = Returns true) /\
  (has_embedded_null pStr ->
   exists v11 v14 : basic_string_view char_t,
     View.ctor_array pStr = Returns v11 /\
     View.ctor_cstr pStr = Returns v14 /\
     View.length v14 < View.length v11).
Proof.
  split.
  - intros Hlast. pose proof Hlast as [Hpos _].
    exists (mk_view pStr (length pStr - 1)), (mk_view pStr (length pStr - 1)).
    split.
    { unfold View.ctor_array. by rewrite bool_decide_eq_true_2 by lia. }
    split.
    { unfold View.ctor_cstr. by rewrite (str_len_only_null_is_last _ Hlast). }
    split; [done|]. split; [done|]. split.
    + intros i Hi. unfold View.length in Hi. simpl in Hi.
      destruct (operator_index_in_range
                  (mk_view pStr (length pStr - 1) : basic_string_view char_t) i)
        as (c & _ & Hc); [unfold well_formed; simpl; lia | simpl; lia |].
      exists c. split; exact Hc.
    + apply operator_eq_refl. unfold well_formed. simpl. lia.
  - intros (k & Hk & Hnull).
    destruct (str_len_from_finds_null pStr k 0 Hnull) as (m & Hm & Hlen).
    exists (mk_view pStr (length pStr - 1)), (mk_view pStr m).
    split.
    { unfold View.ctor_array. by rewrite bool_decide_eq_true_2 by lia. }
    split.
    { unfold View.ctor_cstr, View.str_len. by rewrite Hlen. }
    unfold View.length. simpl. lia.
Qed.

Lemma hello_only_null_is_last : only_null_is_last hello.
Proof.
  split; [vm_compute; lia|].
  intros i. do 6 (destruct i as [|i]; [vm_compute; split; (lia || congruence)|]).
  vm_compute. split; [congruence | lia].
Defined.

Lemma ab_nul_cd_has_embedded_null : has_embedded_null ab_nul_cd.
Proof. exists 2. split; [vm_compute; lia | reflexivity]. Defined.

Lemma literal_constructors_agree_without_embedded_null_witness :
  (exists v11 v14 : basic_string_view char,
     View.ctor_array hello = Returns v11 /\
     View.ctor_cstr hello = Returns v14 /\
     View.operator_eq v11 v14 = Returns true) /\
  (exists v11 v14 : basic_string_view char,
     View.ctor_array ab_nul_cd = Returns v11 /\
     View.ctor_cstr ab_nul_cd = Returns v14 /\
     View.length v14 < View.length v11).
Proof.
  split.
  - destruct (proj1 (literal_constructors_agree_without_embedded_null char hello)
                hello_only_null_is_last)
      as (v11 & v14 & H1 & H2 & _ & _ & _ & H3).
    exists v11, v14. split; [exact H1 | split; [exact H2 | exact H3]].
  - exact (proj2 (literal_constructors_agree_without_embedded_null char ab_nul_cd)
             ab_nul_cd_has_embedded_null).
Defined.

(** ** Runtime errors of the core *)

Lemma fmap_Throws {A B : Type} (f : A -> B) (o : outcome A) (e : exception) :
  f <$> o = Throws e <-> o = Throws e.
Proof. destruct o; simpl; split; intros H; try discriminate; congruence. Qed.

Lemma fmap_Undefined {A B : Type} (f : A -> B) (o : outcome A) :
  f <$> o = Undefined <-> o = Undefined.
Proof. destruct o; simpl; split; intros H; try discriminate; congruence. Qed.

Lemma visit20_never_throws (char_t : cpp_type) (p : Cpp20.poly_enc)
    (e : exception) :
  Cpp20.visit char_t p <> Throws e /\ Cpp20.visit_poly_enc char_t p <> Throws e.
Proof.
  unfold Cpp20.visit_poly_enc, Cpp20.visit.
  by destruct (Cpp20.is_char char_t).
Qed.

Lemma visit17_never_throws (char_t : cpp_type) (p : Cpp17.poly_enc)
    (e : exception) :
  Cpp17.visit char_t p <> Throws e.
Proof. unfold Cpp17.visit. by destruct (Cpp17.assert_char_type char_t). Qed.

Lemma visit14_never_throws (char_t : cpp_type) (p : Cpp14.poly_enc)
    (e : exception) :
  Cpp14.visit char_t p <> Throws e.
Proof. unfold Cpp14.visit. by destruct char_t. Qed.

Lemma operator_eq_never_throws {char_t : cpp_type}
    (a b : basic_string_view char_t) (e : exception) :
  View.operator_eq a b <> Throws e.
Proof.
  unfold View.operator_eq. case_bool_decide; [done | apply eq_loop_never_throws].
Qed.

Lemma run_Throws (c : call) (e : exception) :
  run c = Throws e <->
  indexes_out_of_range c /\
  e = out_of_range "basic_string_view: index out of range".
Proof.
  destruct c; simpl; rewrite ?fmap_Throws;
    try (split; [discriminate | intros [[] _]]).
  - split; [intros H; by apply visit20_never_throws in H | intros [[] _]].
  - split; [intros H; by apply visit20_never_throws in H | intros [[] _]].
  - split; [intros H; by apply visit17_never_throws in H | intros [[] _]].
  - split; [intros H; by apply visit17_never_throws in H | intros [[] _]].
  - split; [intros H; by apply visit14_never_throws in H | intros [[] _]].
  - split; [intros H; by apply visit14_never_throws in H | intros [[] _]].
  - split; [|intros [[] _]]. unfold View.ctor_default.
    by destruct (unqualified char_t).
  - split; [|intros [[] _]]. unfold View.ctor_cstr, View.str_len.
    destruct (View.str_len_from pStr 0) eqn:E; simpl; try discriminate.
    by apply str_len_from_never_throws in E.
  - split; [|intros [[] _]]. unfold View.ctor_array. by case_bool_decide.
  - apply indexing_Throws.
  - apply indexing_Throws.
  - split; [intros H; by apply operator_eq_never_throws in H | intros [[] _]].
  - unfold View.operator_ne. rewrite fmap_Throws.
    split; [intros H; by apply operator_eq_never_throws in H | intros [[] _]].
Qed.

Lemma run_defined (c : call) : call_in_bounds c -> run c <> Undefined.
Proof.
  destruct c; simpl; intros Hin; rewrite ?fmap_Undefined; try discriminate.
  - unfold Cpp20.visit. by destruct (Cpp20.is_char char_t).
  - unfold Cpp20.visit_poly_enc, Cpp20.visit. by destruct (Cpp20.is_char char_t).
  - unfold Cpp17.visit. by destruct (Cpp17.assert_char_type char_t).
  - unfold Cpp17.visit_poly_enc, Cpp17.visit.
    by destruct (Cpp17.assert_char_type char_t).
  - unfold Cpp14.visit. by destruct char_t.
  - unfold Cpp14.visit_poly_enc, Cpp14.visit. by destruct char_t.
  - unfold View.ctor_default. by destruct (unqualified char_t).
  - destruct Hin as [k Hk]. unfold View.ctor_cstr, View.str_len.
    destruct (str_len_from_finds_null pStr k 0 Hk) as (m & _ & ->). done.
  - unfold View.ctor_array. by case_bool_decide.
  - unfold View.operator_index. case_bool_decide as Hpos; [done|].
    destruct (deref_in_range (m_pData v) pos) as (x & _ & ->); [|done].
    unfold well_formed in Hin. lia.
  - unfold View.at_. case_bool_decide as Hpos; [done|].
    destruct (deref_in_range (m_pData v) pos) as (x & _ & ->); [|done].
    unfold well_formed in Hin. lia.
  - destruct Hin as [Hv Ho].
    destruct (operator_eq_returns v other Hv Ho) as [r ->]. done.
  - destruct Hin as [Hv Ho]. unfold View.operator_ne. rewrite fmap_Undefined.
    destruct (operator_eq_returns v other Hv Ho) as [r ->]. done.
Qed.

(** C4, as claimed, fails: the fallback view has a runtime error path. On
    the view of ["Hello"], [v.at(5)] and [v[5]] throw [std::out_of_range]. *)
Lemma indexing_past_the_end_throws :
  well_formed (hello_view char) /\
  run (call_at (hello_view char) 5) =
    Throws (out_of_range "basic_string_view: index out of range") /\
  run (call_operator_index (hello_view char) 5) =
    Throws (out_of_range "basic_string_view: index out of range").
Proof. split; [vm_compute; lia | split; reflexivity]. Qed.

(** C4, amended: the only runtime error path of the core is the bounds check
    of the fallback view. Construction of [poly_enc], [visit] and
    [visit_poly_enc] at every standard level, and the constructors,
    [length], [data], [operator bool], [empty], [==] and [!=] of the
    fallback view never throw; [operator[]] and [at] throw, and then
    [std::out_of_range], exactly when [pos >= length()]. On pointers and
    views whose range lies inside their array every call returns a value,
    throws as said, or is rejected at compile time. *)
Theorem only_indexing_past_the_end_throws (c : call) :
  (forall e, run c = Throws e <->
     indexes_out_of_range c /\
     e = out_of_range "basic_string_view: index out of range") /\
  (never_throws c <-> ~ indexes_out_of_range c) /\
  (call_in_bounds c -> run c <> Undefined).
Proof.
  split; [intros e; apply run_Throws|].
  split; [|apply run_defined].
  unfold never_throws. split.
  - intros Hnever Hout.
    apply (Hnever (out_of_range "basic_string_view: index out of range")).
    by apply run_Throws.
  - intros Hin e He. apply run_Throws in He. tauto.
Qed.

Lemma only_indexing_past_the_end_throws_witness :
  never_throws (call_at (hello_view char) 4) /\
  run (call_at (hello_view char) 4) <> Undefined /\
  never_throws (call_visit20 char8_t hello20) /\
  never_throws (call_operator_eq (hello_view char) (mk_view ab_nul_cd 5)).
Proof.
  split; [|split; [|split]].
  - apply (only_indexing_past_the_end_throws (call_at (hello_view char) 4)).
    vm_compute. lia.
  - apply (only_indexing_past_the_end_throws (call_at (hello_view char) 4)).
    vm_compute. lia.
  - apply (only_indexing_past_the_end_throws (call_visit20 char8_t hello20)).
    vm_compute. tauto.
  - apply (only_indexing_past_the_end_throws
             (call_operator_eq (hello_view char) (mk_view ab_nul_cd 5))).
    vm_compute. tauto.
Defined.

(** ** Further properties of the fallback view *)

Lemma str_len_from_Undefined (rest : list Z) : forall nLength,
  View.str_len_from rest nLength = Undefined <->
  forall i, rest !! i <> Some 0%Z.
Proof.
  induction rest as [|c rest IH]; intros nLength; simpl.
  - split; [intros _ i; done | done].
  - case_bool_decide as Hc.
    + rewrite IH. split.
      * intros H [|i]; simpl; [congruence | apply H].
      * intros H i. apply (H (S i)).
    + assert (c = 0%Z) as -> by (by destruct (decide (c = 0%Z))).
      split; [done | intros H; by destruct (H 0)].
Qed.

Lemma str_len_from_never_rejected (rest : list Z) : forall nLength why,
  View.str_len_from rest nLength <> Rejected why.
Proof.
  induction rest as [|c rest IH]; intros nLength why; simpl; [done|].
  case_bool_decide; [apply IH | done].
Qed.

Lemma str_len_is_first_null_helper (pStr : list Z) (n : nat) :
  View.str_len pStr = Returns n ->
  pStr !! n = Some 0%Z /\
  forall i, i < n -> exists c, pStr !! i = Some c /\ c <> 0%Z.
Proof.
  unfold View.str_len. rewrite str_len_from_Returns.
  intros (k & -> & Hk & Hbefore). done.
Qed.

(** X1: [str_len] returns [n] exactly when the first null character of the
    array is at index [n]: the array holds a null at [n] and non-null
    characters at every index below [n]. *)
Theorem str_len_is_index_of_first_null (pStr : list Z) (n : nat) :
  View.str_len pStr = Returns n <->
  pStr !! n = Some 0%Z /\
  forall i, i < n -> exists c, pStr !! i = Some c /\ c <> 0%Z.
Proof.
  unfold View.str_len. rewrite str_len_from_Returns. split.
  - intros (k & -> & Hk & Hbefore). done.
  - intros [Hn Hbefore]. exists n. done.
Qed.

(** X2: on an array without a null character [str_len] runs past the end of
    the array (undefined behaviour), and only then; it never throws, and a
    length it returns is below the extent of the array. *)
Theorem str_len_needs_a_terminator (pStr : list Z) :
  (View.str_len pStr = Undefined <-> forall i, pStr !! i <> Some 0%Z) /\
  (forall e, View.str_len pStr <> Throws e) /\
  (forall n, View.str_len pStr = Returns n -> n < length pStr) /\
  ((exists k, pStr !! k = Some 0%Z) -> exists n, View.str_len pStr = Returns n).
Proof.
  unfold View.str_len. split; [apply str_len_from_Undefined|].
  split; [intros e; apply str_len_from_never_throws|]. split.
  - intros n Hn. apply str_len_from_Returns in Hn as (k & -> & Hk & _).
    apply lookup_lt_Some in Hk. lia.
  - intros [k Hk]. destruct (str_len_from_finds_null pStr k 0 Hk) as (m & _ & Hm).
    by exists m.
Qed.

Lemma str_len_needs_a_terminator_witness :
  (exists n, View.str_len hello = Returns n) /\
  View.str_len [72; 101]%Z = Undefined.
Proof.
  split.
  - apply (str_len_needs_a_terminator hello). exists 5. reflexivity.
  - apply (str_len_needs_a_terminator [72; 101]%Z).
    intros i. do 2 (destruct i as [|i]; [vm_compute; congruence|]).
    vm_compute. congruence.
Defined.

Lemma at_in_range {char_t : cpp_type} (v : basic_string_view char_t)
    (pos : nat) (c : Z) :
  pos < m_nSize v -> m_pData v !! pos = Some c ->
  View.at_ v pos = Returns c /\ View.operator_index v pos = Returns c.
Proof.
  intros Hpos Hc. unfold View.at_, View.operator_index, deref.
  rewrite bool_decide_eq_false_2 by lia. by rewrite Hc.
Qed.

Lemma at_past_the_view {char_t : cpp_type} (v : basic_string_view char_t)
    (pos : nat) :
  pos >= m_nSize v ->
  View.at_ v pos = Throws (out_of_range "basic_string_view: index out of range").
Proof. intros Hpos. unfold View.at_. by rewrite bool_decide_eq_true_2. Qed.

(** X3: the C++14 constructor from a C string, given an array that holds a
    null character, returns a view of that array that ends at the first
    null: the view lies inside the array, every character it yields is
    non-null, the character just past it is the null, and indexing at its
    length throws. *)
Theorem ctor_cstr_ends_at_first_null (char_t : cpp_type) (pStr : list Z)
    (k : nat) :
  pStr !! k = Some 0%Z ->
  exists v : basic_string_view char_t,
    View.ctor_cstr pStr = Returns v /\
    View.data v = pStr /\
    View.length v <= k /\
    well_formed v /\
    pStr !! View.length v = Some 0%Z /\
    (forall i, i < View.length v ->
       exists c, pStr !! i = Some c /\ c <> 0%Z /\ View.at_ v i = Returns c) /\
    View.at_ v (View.length v) =
      Throws (out_of_range "basic_string_view: index out of range").
Proof.
  intros Hk.
  destruct (str_len_from_finds_null pStr k 0 Hk) as (m & Hm & Hlen).
  simpl in Hlen. pose proof Hlen as Hfirst.
  apply str_len_from_Returns in Hfirst as (k' & Hk' & Hnull & Hbefore).
  simpl in Hk'. subst k'.
  exists (mk_view pStr m). unfold View.length, View.data. simpl.
  split; [unfold View.ctor_cstr, View.str_len; by rewrite Hlen|].
  split; [done|]. split; [done|]. split.
  { unfold well_formed. simpl. apply lookup_lt_Some in Hnull. lia. }
  split; [done|]. split.
  - intros i Hi. destruct (Hbefore i Hi) as (c & Hc & Hne).
    exists c. split; [done|]. split; [done|].
    by apply (at_in_range (mk_view pStr m)).
  - apply at_past_the_view. simpl. lia.
Qed.

Lemma ctor_cstr_ends_at_first_null_witness :
  exists v : basic_string_view char,
    View.ctor_cstr ab_nul_cd = Returns v /\ View.length v <= 5.
Proof.
  destruct (ctor_cstr_ends_at_first_null char ab_nul_cd 5)
    as (v & Hv & _ & Hlen & _); [reflexivity|].
  exists v. split; [exact Hv | exact Hlen].
Defined.

(** X4: the C++11 constructor from an array is rejected for an array of
    extent zero and otherwise returns a view of all elements but the last:
    it lies inside the array, indexing below [N - 1] returns the element of
    the array, and the last element, whatever it is, cannot be reached:
    indexing at [N - 1] or beyond throws. *)
Theorem ctor_array_views_all_but_last (char_t : cpp_type) (pStr : list Z) :
  (pStr = [] ->
   View.ctor_array (char_t:=char_t) pStr =
     Rejected (static_assertion_failed
                 (Some "basic_string_view: invalid length"%string))) /\
  (pStr <> [] ->
   exists v : basic_string_view char_t,
     View.ctor_array pStr = Returns v /\
     View.data v = pStr /\
     S (View.length v) = length pStr /\
     well_formed v /\
     (forall i c, S i < length pStr -> pStr !! i = Some c ->
        View.at_ v i = Returns c) /\
     (forall i, S i >= length pStr ->
        View.at_ v i =
          Throws (out_of_range "basic_string_view: index out of range"))).
Proof.
  split.
  - intros ->. reflexivity.
  - intros Hne. assert (0 < length pStr) as Hpos.
    { destruct pStr; [done | simpl; lia]. }
    exists (mk_view pStr (length pStr - 1)).
    unfold View.length, View.data. simpl.
    split; [unfold View.ctor_array; by rewrite bool_decide_eq_true_2 by lia|].
    split; [done|]. split; [lia|]. split; [unfold well_formed; simpl; lia|].
    split.
    + intros i c Hi Hc.
      apply (at_in_range (mk_view pStr (length pStr - 1))); simpl; [lia | done].
    + intros i Hi. apply at_past_the_view. simpl. lia.
Qed.

Lemma ctor_array_views_all_but_last_witness :
  exists v : basic_string_view char16_t,
    View.ctor_array ab_nul_cd = Returns v /\ S (View.length v) = 6.
Proof.
  destruct (proj2 (ctor_array_views_all_but_last char16_t ab_nul_cd))
    as (v & Hv & _ & Hlen & _); [discriminate|].
  exists v. split; [exact Hv | exact Hlen].
Defined.

(** X5: the C++14 constructor from a pointer and a length always returns,
    with that pointer and that length. The view lies inside the array
    exactly when the length does not exceed the extent; indexing below the
    length returns the element of the array where there is one and reads
    outside the array where there is none. *)
Theorem ctor_ptr_len_trusts_its_length (char_t : cpp_type) (pStr : list Z)
    (nLength : nat) :
  exists v : basic_string_view char_t,
    View.ctor_ptr_len pStr nLength = Returns v /\
    View.data v = pStr /\
    View.length v = nLength /\
    (well_formed v <-> nLength <= length pStr) /\
    (forall i c, i < nLength -> pStr !! i = Some c ->
       View.at_ v i = Returns c /\ View.operator_index v i = Returns c) /\
    (forall i, i < nLength -> length pStr <= i ->
       View.at_ v i = Undefined /\ View.operator_index v i = Undefined).
Proof.
  exists (mk_view pStr nLength). unfold View.length, View.data. simpl.
  split; [done|]. split; [done|]. split; [done|]. split; [done|]. split.
  - intros i c Hi Hc. by apply (at_in_range (mk_view pStr nLength)).
  - intros i Hi Hout. unfold View.at_, View.operator_index, deref. simpl.
    rewrite bool_decide_eq_false_2 by lia.
    by rewrite (lookup_ge_None_2 pStr i Hout).
Qed.

Lemma ctor_ptr_len_trusts_its_length_witness :
  exists v : basic_string_view char,
    View.ctor_ptr_len hello 9 = Returns v /\ View.at_ v 7 = Undefined.
Proof.
  destruct (ctor_ptr_len_trusts_its_length char hello 9)
    as (v & Hv & _ & _ & _ & _ & Hout).
  exists v. split; [exact Hv|]. apply Hout; vm_compute; lia.
Defined.

(** X6: [empty()] and [operator bool] are complementary, and a view is
    empty exactly when its length is zero, which is exactly when [at] throws
    at every position; a non-empty view does not throw at position [0]. *)
Theorem empty_iff_every_index_throws {char_t : cpp_type}
    (v : basic_string_view char_t) :
  View.empty v = negb (View.operator_bool v) /\
  (View.empty v = true <-> View.length v = 0) /\
  (View.empty v = true <->
   forall pos, View.at_ v pos =
     Throws (out_of_range "basic_string_view: index out of range")) /\
  (View.operator_bool v = true <-> forall e, View.at_ v 0 <> Throws e).
Proof.
  unfold View.empty, View.operator_bool, View.length.
  split; [|split; [|split]].
  - destruct (decide (m_nSize v = 0)) as [Hz|Hnz].
    + rewrite bool_decide_eq_true_2, bool_decide_eq_false_2; [done | lia | done].
    + rewrite bool_decide_eq_false_2, bool_decide_eq_true_2; [done | lia | done].
  - apply bool_decide_eq_true.
  - rewrite bool_decide_eq_true. split.
    + intros Hz pos. apply at_past_the_view. lia.
    + intros Hall. specialize (Hall 0).
      apply (proj2 (indexing_Throws v 0 _)) in Hall. lia.
  - rewrite bool_decide_eq_true. split.
    + intros Hpos e He. apply (proj2 (indexing_Throws v 0 e)) in He. lia.
    + intros Hno. destruct (decide (m_nSize v > 0)) as [|Hz]; [done|].
      exfalso. apply (Hno (out_of_range "basic_string_view: index out of range")).
      apply at_past_the_view. lia.
Qed.

(** X7: the default constructor initialises the pointer from the narrow
    literal [""]. For [char], with or without [const] and [volatile] on it,
    it returns an empty view that lies inside its one-element array, throws
    at every index and equals itself; for every other type the
    initialisation has no conversion and the call is rejected. *)
Theorem ctor_default_is_empty_and_narrow_only (char_t : cpp_type) :
  (unqualified char_t = char ->
   exists v : basic_string_view char_t,
     View.ctor_default = Returns v /\
     View.data v = [0%Z] /\
     View.length v = 0 /\
     View.empty v = true /\
     View.operator_bool v = false /\
     well_formed v /\
     (forall pos, View.at_ v pos =
        Throws (out_of_range "basic_string_view: index out of range")) /\
     View.operator_eq v v = Returns true) /\
  (unqualified char_t <> char ->
   View.ctor_default (char_t:=char_t) = Rejected no_conversion).
Proof.
  unfold View.ctor_default. split.
  - intros ->. exists (mk_view [0%Z] 0).
    split; [done|]. split; [done|]. split; [done|].
    split; [done|]. split; [done|].
    split; [unfold well_formed; simpl; lia|].
    split; [|done]. intros pos. apply at_past_the_view. simpl. lia.
  - intros Hne. by destruct (unqualified char_t).
Qed.

Lemma ctor_default_is_empty_and_narrow_only_witness :
  (exists v : basic_string_view char,
     View.ctor_default = Returns v /\ View.empty v = true) /\
  (exists v : basic_string_view (qualified cv_const char),
     View.ctor_default = Returns v /\ View.empty v = true) /\
  View.ctor_default (char_t:=wchar_t) = Rejected no_conversion /\
  View.ctor_default (char_t:=other_type "unsigned char") =
    Rejected no_conversion.
Proof.
  split; [|split; [|split]].
  - destruct (proj1 (ctor_default_is_empty_and_narrow_only char))
      as (v & Hv & _ & _ & He & _); [reflexivity|].
    exists v. split; [exact Hv | exact He].
  - destruct (proj1 (ctor_default_is_empty_and_narrow_only
                       (qualified cv_const char)))
      as (v & Hv & _ & _ & He & _); [reflexivity|].
    exists v. split; [exact Hv | exact He].
  - apply (ctor_default_is_empty_and_narrow_only wchar_t). discriminate.
  - apply (ctor_default_is_empty_and_narrow_only (other_type "unsigned char")).
    discriminate.
Defined.

(** ** [str()] *)

Lemma take_agree (p q : list Z) (n : nat) :
  n <= length p -> n <= length q ->
  take n p = take n q <-> forall i, i < n -> p !! i = q !! i.
Proof.
  intros Hp Hq. split.
  - intros Heq i Hi.
    rewrite <- (lookup_take_lt p n i Hi), <- (lookup_take_lt q n i Hi).
    by rewrite Heq.
  - intros Hall. apply list_eq. intros i.
    destruct (decide (i < n)) as [Hi|Hi].
    + rewrite !lookup_take_lt by done. by apply Hall.
    + rewrite !lookup_take_ge by lia. done.
Qed.

Lemma basic_string_copy_contract : basic_string_contract basic_string_copy.
Proof.
  intros s count r Hcount. unfold basic_string_copy.
  rewrite bool_decide_eq_true_2 by done. congruence.
Qed.

(** X8: when [str()] returns for a view that lies inside its array, the
    string has the length of the view and holds, at each index below that
    length, the character that [at] returns there; past the length the
    string has no character and [at] throws. *)
Theorem str_copies_the_viewed_characters {char_t : cpp_type}
    (basic_string : list Z -> nat -> outcome (list Z))
    (v : basic_string_view char_t) (s : list Z) :
  basic_string_contract basic_string ->
  well_formed v ->
  str basic_string v = Returns s ->
  length s = View.length v /\
  (forall i, i < View.length v ->
     exists c, s !! i = Some c /\ View.at_ v i = Returns c) /\
  (forall i, i >= View.length v ->
     s !! i = None /\
     View.at_ v i =
       Throws (out_of_range "basic_string_view: index out of range")).
Proof.
  unfold str, well_formed, View.length. intros Hcontract Hwf Hs.
  apply Hcontract in Hs; [|done]. subst s.
  split; [by apply length_take_le|]. split.
  - intros i Hi.
    destruct (lookup_lt_is_Some_2 (m_pData v) i) as [c Hc]; [lia|].
    exists c. split; [by rewrite lookup_take_lt|].
    by apply at_in_range.
  - intros i Hi. split; [apply lookup_take_ge; lia|].
    by apply at_past_the_view.
Qed.

Lemma str_copies_the_viewed_characters_witness :
  length (take 5 hello) = View.length (hello_view char).
Proof.
  apply (str_copies_the_viewed_characters basic_string_copy
           (hello_view char) (take 5 hello)).
  - exact basic_string_copy_contract.
  - vm_compute. lia.
  - reflexivity.
Defined.

(** X9: [==] on views is equality of their strings: for two views that lie
    inside their arrays and whose [str()] return, [a == b] returns [true]
    if the two strings are equal and [false] if they differ. *)
Theorem operator_eq_is_equality_of_str {char_t : cpp_type}
    (basic_string : list Z -> nat -> outcome (list Z))
    (a b : basic_string_view char_t) (sa sb : list Z) :
  basic_string_contract basic_string ->
  well_formed a -> well_formed b ->
  str basic_string a = Returns sa ->
  str basic_string b = Returns sb ->
  View.operator_eq a b = Returns (bool_decide (sa = sb)) /\
  View.operator_ne a b = Returns (bool_decide (sa <> sb)).
Proof.
  unfold str. intros Hcontract Ha Hb Hsa Hsb.
  apply Hcontract in Hsa; [|done]. apply Hcontract in Hsb; [|done]. subst sa sb.
  assert (View.operator_eq a b = Returns true <->
          take (m_nSize a) (m_pData a) = take (m_nSize b) (m_pData b)) as Hiff.
  { rewrite operator_eq_true. unfold well_formed in Ha, Hb. split.
    - intros [Hsz Hall]. rewrite <- Hsz. apply take_agree; [lia | lia |].
      intros i Hi. destruct (Hall i Hi) as (c & -> & ->). done.
    - intros Heq. assert (m_nSize a = m_nSize b) as Hsz.
      { apply (f_equal length) in Heq. rewrite !length_take_le in Heq; lia. }
      split; [done|]. rewrite <- Hsz in Heq.
      apply (agree_lookup a b Ha).
      apply take_agree; [lia | lia | done]. }
  destruct (operator_eq_returns a b Ha Hb) as [r Hr].
  assert (r = bool_decide (take (m_nSize a) (m_pData a) =
                           take (m_nSize b) (m_pData b))) as ->.
  { rewrite Hr in Hiff. destruct r.
    - symmetry. apply bool_decide_eq_true_2. by apply Hiff.
    - symmetry. apply bool_decide_eq_false_2. intros Heq.
      apply Hiff in Heq. discriminate. }
  split; [done|]. unfold View.operator_ne. rewrite Hr. simpl. f_equal.
  by rewrite bool_decide_not.
Qed.

Lemma operator_eq_is_equality_of_str_witness :
  View.operator_eq (hello_view char) (mk_view ab_nul_cd 5) =
    Returns (bool_decide (take 5 hello = take 5 ab_nul_cd)).
Proof.
  apply (operator_eq_is_equality_of_str basic_string_copy
           (hello_view char) (mk_view ab_nul_cd 5)).
  - exact basic_string_copy_contract.
  - vm_compute. lia.
  - vm_compute. lia.
  - reflexivity.
  - reflexivity.
Defined.

(** ** Selection below C++20 *)

Lemma legacy_cases (T : cpp_type) :
  T ∈ legacy_types <->
  T = char \/ T = wchar_t \/ T = char16_t \/ T = char32_t.
Proof. unfold legacy_types. rewrite !elem_of_cons, elem_of_nil. tauto. Qed.

(** X10: at C++17 and at C++14/C++11, [visit] and [visit_poly_enc] return a
    view exactly for [char], [wchar_t], [char16_t] and [char32_t]; any other
    type, [char8_t] included, is rejected. For the four types the view is
    the constructor argument passed for that type. *)
Theorem legacy_visit_accepts_four_types (char_t : cpp_type)
    (v1 : basic_string_view char) (v2 : basic_string_view wchar_t)
    (v4 : basic_string_view char16_t) (v5 : basic_string_view char32_t) :
  ((exists v, Cpp17.visit char_t (Cpp17.poly_enc_ctor v1 v2 v4 v5) = Returns v)
   <-> char_t ∈ legacy_types) /\
  ((exists v, Cpp14.visit char_t (Cpp14.poly_enc_ctor v1 v2 v4 v5) = Returns v)
   <-> char_t ∈ legacy_types) /\
  Cpp17.visit_poly_enc char_t (Cpp17.poly_enc_ctor v1 v2 v4 v5) =
    Cpp17.visit char_t (Cpp17.poly_enc_ctor v1 v2 v4 v5) /\
  Cpp14.visit_poly_enc char_t (Cpp14.poly_enc_ctor v1 v2 v4 v5) =
    Cpp14.visit char_t (Cpp14.poly_enc_ctor v1 v2 v4 v5) /\
  (Cpp17.visit char (Cpp17.poly_enc_ctor v1 v2 v4 v5) = Returns v1 /\
   Cpp17.visit wchar_t (Cpp17.poly_enc_ctor v1 v2 v4 v5) = Returns v2 /\
   Cpp17.visit char16_t (Cpp17.poly_enc_ctor v1 v2 v4 v5) = Returns v4 /\
   Cpp17.visit char32_t (Cpp17.poly_enc_ctor v1 v2 v4 v5) = Returns v5) /\
  (Cpp14.visit char (Cpp14.poly_enc_ctor v1 v2 v4 v5) = Returns v1 /\
   Cpp14.visit wchar_t (Cpp14.poly_enc_ctor v1 v2 v4 v5) = Returns v2 /\
   Cpp14.visit char16_t (Cpp14.poly_enc_ctor v1 v2 v4 v5) = Returns v4 /\
   Cpp14.visit char32_t (Cpp14.poly_enc_ctor v1 v2 v4 v5) = Returns v5).
Proof.
  rewrite legacy_cases.
  split; [|split; [|repeat split]].
  - destruct char_t; simpl; split;
      try (intros _; eexists; reflexivity);
      try (intros [v Hv]; discriminate Hv);
      try tauto;
      intros [H|[H|[H|H]]]; discriminate H.
  - destruct char_t; simpl; split;
      try (intros _; eexists; reflexivity);
      try (intros [v Hv]; discriminate Hv);
      try tauto;
      intros [H|[H|[H|H]]]; discriminate H.
Qed.

(** X11: selection is portable across the standard levels. When the views
    for [char], [wchar_t], [char16_t] and [char32_t] are the same, [visit]
    at C++20, C++17 and C++14/C++11 gives the same outcome for every type
    except [char8_t], which only C++20 accepts. *)
Theorem visit_agrees_across_levels (char_t : cpp_type)
    (v1 : basic_string_view char) (v2 : basic_string_view wchar_t)
    (v3 : basic_string_view char8_t)
    (v4 : basic_string_view char16_t) (v5 : basic_string_view char32_t) :
  (char_t ∈ legacy_types ->
   Cpp17.visit char_t (Cpp17.poly_enc_ctor v1 v2 v4 v5) =
     Cpp20.visit char_t (Cpp20.poly_enc_ctor v1 v2 v3 v4 v5) /\
   Cpp14.visit char_t (Cpp14.poly_enc_ctor v1 v2 v4 v5) =
     Cpp20.visit char_t (Cpp20.poly_enc_ctor v1 v2 v3 v4 v5)) /\
  (forall v,
     Cpp17.visit char_t (Cpp17.poly_enc_ctor v1 v2 v4 v5) = Returns v <->
     Cpp14.visit char_t (Cpp14.poly_enc_ctor v1 v2 v4 v5) = Returns v) /\
  (char_t <> char8_t -> forall v,
     Cpp20.visit char_t (Cpp20.poly_enc_ctor v1 v2 v3 v4 v5) = Returns v <->
     Cpp17.visit char_t (Cpp17.poly_enc_ctor v1 v2 v4 v5) = Returns v) /\
  (Cpp20.visit char8_t (Cpp20.poly_enc_ctor v1 v2 v3 v4 v5) = Returns v3 /\
   ~ (exists v, Cpp17.visit char8_t (Cpp17.poly_enc_ctor v1 v2 v4 v5) = Returns v) /\
   ~ (exists v, Cpp14.visit char8_t (Cpp14.poly_enc_ctor v1 v2 v4 v5) = Returns v)).
Proof.
  split; [|split; [|split]].
  - rewrite legacy_cases. intros [->|[->|[->| ->]]]; by split.
  - intros v. destruct char_t; simpl; split; intros H;
      try discriminate H; exact H.
  - intros Hne v. destruct char_t; simpl; split; intros H;
      try discriminate H; try exact H; done.
  - split; [done|]. split; intros [v Hv]; discriminate Hv.
Qed.

Lemma visit_agrees_across_levels_witness :
  Cpp17.visit char32_t hello17 = Cpp20.visit char32_t hello20 /\
  Cpp14.visit char32_t hello14 = Cpp20.visit char32_t hello20.
Proof.
  apply (visit_agrees_across_levels char32_t (hello_view char)
           (hello_view wchar_t) (hello_view char8_t) (hello_view char16_t)
           (hello_view char32_t)).
  unfold legacy_types. rewrite !elem_of_cons. tauto.
Defined.

(** ** The macros below C++20 *)

Lemma ctor_array_nonempty {char_t : cpp_type} (pStr : list Z) :
  pStr <> [] ->
  View.ctor_array (char_t:=char_t) pStr =
    Returns (mk_view pStr (length pStr - 1)).
Proof.
  intros Hne. unfold View.ctor_array.
  rewrite bool_decide_eq_true_2; [done|]. destruct pStr; [done | simpl; lia].
Qed.

Lemma ctor_cstr_first_null {char_t : cpp_type} (pStr : list Z) (k : nat) :
  pStr !! k = Some 0%Z ->
  exists m, m <= k /\ View.str_len pStr = Returns m /\
            View.ctor_cstr (char_t:=char_t) pStr = Returns (mk_view pStr m).
Proof.
  intros Hk. destruct (str_len_from_finds_null pStr k 0 Hk) as (m & Hm & Hlen).
  exists m. split; [done|]. unfold View.ctor_cstr, View.str_len.
  rewrite Hlen. done.
Qed.

Lemma terminated_has_null (pStr : list Z) :
  last pStr = Some 0%Z ->
  pStr <> [] /\ pStr !! (length pStr - 1) = Some 0%Z.
Proof.
  intros Hlast. split; [by intros ->|].
  rewrite last_lookup in Hlast. by replace (length pStr - 1) with (pred (length pStr)) by lia.
Qed.

Lemma legacy_arrays (P : list Z -> Prop) (l : literal) :
  (forall T, T ∈ legacy_types -> P (literal_array T l)) ->
  P (lit l) /\ P (L_lit l) /\ P (u_lit l) /\ P (U_lit l).
Proof.
  intros H. repeat split.
  - apply (H char), legacy_cases. tauto.
  - apply (H wchar_t), legacy_cases. tauto.
  - apply (H char16_t), legacy_cases. tauto.
  - apply (H char32_t), legacy_cases. tauto.
Qed.

(** X12: at C++11, [make_poly_enc(char_t, lit)] on the arrays of a literal
    returns, for each of [char], [wchar_t], [char16_t] and [char32_t], the
    view of the array the compiler made for that type with its last element
    (the terminator) left out: nulls inside the literal stay in the view. *)
Theorem make_poly_enc11_views_whole_literal (char_t : cpp_type) (l : literal) :
  (forall T, T ∈ legacy_types -> literal_array T l <> []) ->
  char_t ∈ legacy_types ->
  exists v : basic_string_view char_t,
    Macros11.make_poly_enc char_t l = Returns v /\
    View.data v = literal_array char_t l /\
    S (View.length v) = length (literal_array char_t l) /\
    well_formed v /\
    (forall i c, S i < length (literal_array char_t l) ->
       literal_array char_t l !! i = Some c -> View.at_ v i = Returns c).
Proof.
  intros Hne Hs.
  pose proof (Hne char_t Hs) as Hmine.
  destruct (legacy_arrays (fun a => a <> []) l Hne) as (H1 & H2 & H4 & H5).
  assert (0 < length (literal_array char_t l)) as Hpos.
  { destruct (literal_array char_t l); [done | simpl; lia]. }
  exists (mk_view (literal_array char_t l)
                  (length (literal_array char_t l) - 1)).
  unfold View.data, View.length. simpl.
  split.
  { unfold Macros11.make_poly_enc, Macros11.cons_poly_enc.
    rewrite (ctor_array_nonempty _ H1), (ctor_array_nonempty _ H2),
      (ctor_array_nonempty _ H4), (ctor_array_nonempty _ H5).
    apply legacy_cases in Hs as [->|[->|[->| ->]]]; reflexivity. }
  split; [done|]. split; [lia|]. split; [unfold well_formed; simpl; lia|].
  intros i c Hi Hc.
  apply (at_in_range (mk_view (literal_array char_t l) _)); simpl; [lia | done].
Qed.

Lemma make_poly_enc11_views_whole_literal_witness :
  exists v : basic_string_view char16_t,
    Macros11.make_poly_enc char16_t ab_nul_cd_literal = Returns v /\
    S (View.length v) = 6.
Proof.
  destruct (make_poly_enc11_views_whole_literal char16_t ab_nul_cd_literal)
    as (v & Hv & _ & Hlen & _).
  - intros T HT. apply legacy_cases in HT as [->|[->|[->| ->]]]; discriminate.
  - apply legacy_cases. tauto.
  - exists v. split; [exact Hv | exact Hlen].
Defined.

(** X13: at C++14, [make_poly_enc(char_t, lit)] on the null-terminated
    arrays of a literal returns, for each of [char], [wchar_t], [char16_t]
    and [char32_t], the view of the array for that type cut at its first
    null character: its length is what [str_len] computes and every
    character it yields is non-null. *)
Theorem make_poly_enc14_stops_at_first_null (char_t : cpp_type) (l : literal) :
  (forall T, T ∈ legacy_types -> last (literal_array T l) = Some 0%Z) ->
  char_t ∈ legacy_types ->
  exists v : basic_string_view char_t,
    Macros14.make_poly_enc char_t l = Returns v /\
    View.data v = literal_array char_t l /\
    View.str_len (literal_array char_t l) = Returns (View.length v) /\
    View.length v < length (literal_array char_t l) /\
    well_formed v /\
    (forall i, i < View.length v ->
       exists c, View.at_ v i = Returns c /\ c <> 0%Z).
Proof.
  intros Hterm Hs.
  destruct (legacy_arrays (fun a => last a = Some 0%Z) l Hterm)
    as (H1 & H2 & H4 & H5).
  apply terminated_has_null in H1 as [_ H1], H2 as [_ H2],
    H4 as [_ H4], H5 as [_ H5].
  destruct (ctor_cstr_first_null (char_t:=char) _ _ H1) as (m1 & _ & L1 & C1).
  destruct (ctor_cstr_first_null (char_t:=wchar_t) _ _ H2) as (m2 & _ & L2 & C2).
  destruct (ctor_cstr_first_null (char_t:=char16_t) _ _ H4) as (m4 & _ & L4 & C4).
  destruct (ctor_cstr_first_null (char_t:=char32_t) _ _ H5) as (m5 & _ & L5 & C5).
  assert (exists m, View.str_len (literal_array char_t l) = Returns m /\
            Macros14.make_poly_enc char_t l =
              Returns (mk_view (literal_array char_t l) m)) as (m & Lm & Hv).
  { unfold Macros14.make_poly_enc, Macros14.cons_poly_enc.
    rewrite C1, C2, C4, C5.
    apply legacy_cases in Hs as [->|[->|[->| ->]]]; eexists; split; try eassumption;
      reflexivity. }
  exists (mk_view (literal_array char_t l) m).
  unfold View.data, View.length. simpl.
  apply str_len_is_first_null_helper in Lm as (Hnull & Hbefore).
  pose proof (lookup_lt_Some _ _ _ Hnull) as Hlt.
  split; [done|]. split; [done|]. split.
  { unfold View.str_len. apply str_len_from_Returns. exists m. done. }
  split; [done|]. split; [unfold well_formed; simpl; lia|].
  intros i Hi. destruct (Hbefore i Hi) as (c & Hc & Hne).
  exists c. split; [|done].
  by apply (at_in_range (mk_view (literal_array char_t l) m)).
Qed.

Lemma make_poly_enc14_stops_at_first_null_witness :
  exists v : basic_string_view wchar_t,
    Macros14.make_poly_enc wchar_t ab_nul_cd_literal = Returns v /\
    View.str_len ab_nul_cd = Returns (View.length v).
Proof.
  destruct (make_poly_enc14_stops_at_first_null wchar_t ab_nul_cd_literal)
    as (v & Hv & _ & Hlen & _).
  - intros T HT. apply legacy_cases in HT as [->|[->|[->| ->]]]; reflexivity.
  - apply legacy_cases. tauto.
  - exists v. split; [exact Hv | exact Hlen].
Defined.

Lemma ctor_cstr_only_null_is_last {char_t : cpp_type} (pStr : list Z) :
  only_null_is_last pStr ->
  View.ctor_cstr (char_t:=char_t) pStr =
    Returns (mk_view pStr (length pStr - 1)).
Proof.
  intros Hlast. unfold View.ctor_cstr.
  by rewrite (str_len_only_null_is_last _ Hlast).
Qed.

Lemma only_null_is_last_nonempty (pStr : list Z) :
  only_null_is_last pStr -> pStr <> [].
Proof. intros [Hpos _] ->. simpl in Hpos. lia. Qed.

(** X14: the macros of C++11 and C++14 agree on literals without embedded
    nulls. When, in each of the four arrays, the only null character is the
    last element, [cons_poly_enc] builds the same [poly_enc] at both levels
    and [make_poly_enc] gives the same outcome for every [char_t]. When the
    array for a supported [char_t] has a null before its last element, both
    return, and the C++14 view is shorter than the C++11 view. *)
Theorem macros_agree_without_embedded_null (char_t : cpp_type) (l : literal) :
  ((forall T, T ∈ legacy_types -> only_null_is_last (literal_array T l)) ->
   (exists p, Macros11.cons_poly_enc l = Returns p /\
              Macros14.cons_poly_enc l = Returns p) /\
   Macros11.make_poly_enc char_t l = Macros14.make_poly_enc char_t l) /\
  ((forall T, T ∈ legacy_types -> last (literal_array T l) = Some 0%Z) ->
   char_t ∈ legacy_types ->
   has_embedded_null (literal_array char_t l) ->
   exists v11 v14 : basic_string_view char_t,
     Macros11.make_poly_enc char_t l = Returns v11 /\
     Macros14.make_poly_enc char_t l = Returns v14 /\
     View.length v14 < View.length v11).
Proof.
  split.
  - intros Hall.
    destruct (legacy_arrays only_null_is_last l Hall) as (H1 & H2 & H4 & H5).
    unfold Macros11.make_poly_enc, Macros14.make_poly_enc,
      Macros11.cons_poly_enc, Macros14.cons_poly_enc.
    rewrite (ctor_cstr_only_null_is_last _ H1),
      (ctor_cstr_only_null_is_last _ H2),
      (ctor_cstr_only_null_is_last _ H4),
      (ctor_cstr_only_null_is_last _ H5).
    rewrite (ctor_array_nonempty _ (only_null_is_last_nonempty _ H1)),
      (ctor_array_nonempty _ (only_null_is_last_nonempty _ H2)),
      (ctor_array_nonempty _ (only_null_is_last_nonempty _ H4)),
      (ctor_array_nonempty _ (only_null_is_last_nonempty _ H5)).
    split; [eexists; split; reflexivity | reflexivity].
  - intros Hterm Hs (k & Hk & Hnull).
    destruct (legacy_arrays (fun a => last a = Some 0%Z) l Hterm)
      as (H1 & H2 & H4 & H5).
    apply terminated_has_null in H1 as [N1 H1], H2 as [N2 H2],
      H4 as [N4 H4], H5 as [N5 H5].
    destruct (ctor_cstr_first_null (char_t:=char) _ _ H1) as (m1 & B1 & _ & C1).
    destruct (ctor_cstr_first_null (char_t:=wchar_t) _ _ H2) as (m2 & B2 & _ & C2).
    destruct (ctor_cstr_first_null (char_t:=char16_t) _ _ H4) as (m4 & B4 & _ & C4).
    destruct (ctor_cstr_first_null (char_t:=char32_t) _ _ H5) as (m5 & B5 & _ & C5).
    destruct (ctor_cstr_first_null (char_t:=char_t) _ _ Hnull)
      as (m & Bm & Lm & _).
    assert (Macros14.make_poly_enc char_t l =
              Returns (mk_view (literal_array char_t l) m)) as Hv14.
    { unfold Macros14.make_poly_enc, Macros14.cons_poly_enc.
      rewrite C1, C2, C4, C5. unfold View.ctor_cstr in C1, C2, C4, C5.
      apply legacy_cases in Hs as [->|[->|[->| ->]]]; simpl in *;
        rewrite Lm in *; simpl in *; congruence. }
    exists (mk_view (literal_array char_t l)
                    (length (literal_array char_t l) - 1)),
           (mk_view (literal_array char_t l) m).
    split; [|split; [exact Hv14 | unfold View.length; simpl; lia]].
    unfold Macros11.make_poly_enc, Macros11.cons_poly_enc.
    rewrite (ctor_array_nonempty _ N1), (ctor_array_nonempty _ N2),
      (ctor_array_nonempty _ N4), (ctor_array_nonempty _ N5).
    apply legacy_cases in Hs as [->|[->|[->| ->]]]; reflexivity.
Qed.

Lemma macros_agree_without_embedded_null_witness :
  Macros11.make_poly_enc char hello_literal =
    Macros14.make_poly_enc char hello_literal /\
  (exists v11 v14 : basic_string_view char,
     Macros11.make_poly_enc char ab_nul_cd_literal = Returns v11 /\
     Macros14.make_poly_enc char ab_nul_cd_literal = Returns v14 /\
     View.length v14 < View.length v11).
Proof.
  split.
  - apply (macros_agree_without_embedded_null char hello_literal).
    intros T HT.
    apply legacy_cases in HT as [->|[->|[->| ->]]];
      exact hello_only_null_is_last.
  - apply (macros_agree_without_embedded_null char ab_nul_cd_literal).
    + intros T HT. apply legacy_cases in HT as [->|[->|[->| ->]]]; reflexivity.
    + apply legacy_cases. tauto.
    + exact ab_nul_cd_has_embedded_null.
Defined.

(** ** [char8_to_char] *)

Lemma static_cast_char_of_byte (char_is_signed : bool) (b : Z) :
  (0 <= b < 256)%Z ->
  Char8.static_cast_char char_is_signed b = Char8.char_of_byte char_is_signed b.
Proof.
  intros Hb. unfold Char8.static_cast_char, Char8.char_of_byte.
  destruct char_is_signed; simpl.
  - case_bool_decide as Hhigh.
    + replace (b + 128)%Z with ((b - 128) + 1 * 256)%Z by lia.
      rewrite Z_mod_plus_full, Z.mod_small by lia. lia.
    + rewrite Z.mod_small by lia. lia.
  - by rewrite Z.mod_small by lia.
Qed.

Lemma char_of_byte_range (char_is_signed : bool) (b : Z) :
  (0 <= b < 256)%Z ->
  (Char8.char_of_byte char_is_signed b `mod` 256 = b)%Z /\
  ((b < 128)%Z -> Char8.char_of_byte char_is_signed b = b) /\
  (if char_is_signed
   then (-128 <= Char8.char_of_byte char_is_signed b < 128)%Z
   else (0 <= Char8.char_of_byte char_is_signed b < 256)%Z).
Proof.
  intros Hb. unfold Char8.char_of_byte. destruct char_is_signed; simpl.
  - case_bool_decide as Hhigh.
    + split; [|split; lia].
      replace (b - 256)%Z with (b + (-1) * 256)%Z by lia.
      rewrite Z_mod_plus_full. apply Z.mod_small. lia.
    + split; [apply Z.mod_small; lia | split; lia].
  - split; [apply Z.mod_small; lia | split; lia].
Qed.

(** The loop writes the cast of each character it reads and leaves the rest
    of the string as it was. *)
Lemma cast_loop_writes (char_is_signed : bool)
    (sText : basic_string_view char8_t) (n : nat) : forall i sResult,
  i + n <= length (m_pData sText) -> i + n <= length sResult ->
  exists r,
    Char8.cast_loop char_is_signed sText sResult i n = Returns r /\
    length r = length sResult /\
    forall j, r !! j =
      if decide (i <= j < i + n)
      then Char8.static_cast_char char_is_signed <$> (m_pData sText !! j)
      else sResult !! j.
Proof.
  induction n as [|n IH]; intros i sResult Hdata Hres; simpl.
  - exists sResult. split; [done|]. split; [done|].
    intros j. destruct (decide (i <= j < i + 0)); [lia | done].
  - destruct (deref_in_range (m_pData sText) i) as (c & Hc & ->); [lia|].
    unfold_outcome.
    destruct (IH (S i) (<[i := Char8.static_cast_char char_is_signed c]> sResult))
      as (r & Hr & Hlen & Hlook); [lia | rewrite length_insert; lia |].
    exists r. split; [done|]. rewrite length_insert in Hlen. split; [done|].
    intros j. rewrite Hlook.
    destruct (decide (j = i)) as [->|Hne].
    + destruct (decide (S i <= i < S i + n)); [lia|].
      destruct (decide (i <= i < i + S n)); [|lia].
      rewrite list_lookup_insert_eq by lia. by rewrite Hc.
    + rewrite list_lookup_insert_ne by done.
      destruct (decide (S i <= j < S i + n)), (decide (i <= j < i + S n));
        try done; lia.
Qed.

Lemma char8_to_char_memcpy (char_is_signed : bool)
    (sText : basic_string_view char8_t) :
  well_formed sText ->
  Char8.char8_to_char char_is_signed sText =
    Returns (Char8.char_of_byte char_is_signed <$>
               take (m_nSize sText) (m_pData sText)).
Proof.
  unfold well_formed, Char8.char8_to_char, Char8.memcpy. intros Hwf. simpl.
  rewrite Nat.mul_1_r, length_replicate.
  rewrite bool_decide_eq_true_2 by lia.
  rewrite drop_ge by (rewrite length_replicate; lia).
  by rewrite app_nil_r.
Qed.

(** X15: for a UTF-8 view that lies inside its array, [char8_to_char]
    returns a string of the same length in which every character has the
    bit pattern of the byte at the same index: it is congruent to the byte
    modulo [2^8], lies in the range of [char], and is the byte itself for
    ASCII. The character-by-character loop of the other [if constexpr]
    branch computes the same string. *)
Theorem char8_to_char_keeps_every_byte (char_is_signed : bool)
    (sText : basic_string_view char8_t) :
  well_formed sText -> Char8.bytes sText ->
  exists sResult,
    Char8.char8_to_char char_is_signed sText = Returns sResult /\
    length sResult = m_nSize sText /\
    (forall i b, i < m_nSize sText -> m_pData sText !! i = Some b ->
       exists c, sResult !! i = Some c /\
                 (c `mod` 256 = b)%Z /\
                 ((b < 128)%Z -> c = b) /\
                 (if char_is_signed then (-128 <= c < 128)%Z
                  else (0 <= c < 256)%Z)) /\
    Char8.cast_loop char_is_signed sText
      (replicate (m_nSize sText) 0%Z) 0 (m_nSize sText) = Returns sResult.
Proof.
  intros Hwf Hbytes. pose proof Hwf as Hle. unfold well_formed in Hle.
  exists (Char8.char_of_byte char_is_signed <$>
            take (m_nSize sText) (m_pData sText)).
  split; [by apply char8_to_char_memcpy|].
  split; [by rewrite length_fmap, length_take_le|]. split.
  - intros i b Hi Hb.
    exists (Char8.char_of_byte char_is_signed b).
    split; [by rewrite list_lookup_fmap, lookup_take_lt, Hb|].
    apply char_of_byte_range. by apply (Hbytes i).
  - destruct (cast_loop_writes char_is_signed sText (m_nSize sText) 0
                (replicate (m_nSize sText) 0%Z))
      as (r & -> & Hlen & Hlook); [lia | rewrite length_replicate; lia |].
    f_equal. apply list_eq. intros j. rewrite Hlook, list_lookup_fmap.
    destruct (decide (0 <= j < 0 + m_nSize sText)) as [Hj|Hj].
    + rewrite lookup_take_lt by lia.
      destruct (m_pData sText !! j) as [b|] eqn:Hb; [|done]. simpl. f_equal.
      apply static_cast_char_of_byte. apply (Hbytes j); [lia | done].
    + rewrite lookup_take_ge by lia. simpl.
      apply lookup_ge_None_2. rewrite length_replicate. lia.
Qed.

Lemma char8_to_char_keeps_every_byte_witness :
  exists sResult,
    Char8.char8_to_char true (mk_view h_e_acute 3) = Returns sResult /\
    length sResult = 3.
Proof.
  destruct (char8_to_char_keeps_every_byte true (mk_view h_e_acute 3))
    as (sResult & Hr & Hlen & _).
  - vm_compute. lia.
  - intros i c Hi. simpl in Hi.
    do 3 (destruct i as [|i]; [simpl; intros [= <-]; lia|]). lia.
  - exists sResult. split; [exact Hr | exact Hlen].
Defined.

Lemma char_of_byte_inj (char_is_signed : bool) (x y : Z) :
  (0 <= x < 256)%Z -> (0 <= y < 256)%Z ->
  Char8.char_of_byte char_is_signed x = Char8.char_of_byte char_is_signed y ->
  x = y.
Proof.
  intros Hx Hy Heq.
  destruct (char_of_byte_range char_is_signed x Hx) as [<- _].
  destruct (char_of_byte_range char_is_signed y Hy) as [<- _].
  by rewrite Heq.
Qed.

(** X16: [char8_to_char] loses nothing: two UTF-8 views that lie inside
    their arrays and give the same string view the same bytes. On a view
    whose length exceeds its array the copy reads outside the array. *)
Theorem char8_to_char_loses_nothing (char_is_signed : bool)
    (a b : basic_string_view char8_t) :
  (well_formed a -> well_formed b -> Char8.bytes a -> Char8.bytes b ->
   Char8.char8_to_char char_is_signed a = Char8.char8_to_char char_is_signed b ->
   View.length a = View.length b /\
   take (m_nSize a) (m_pData a) = take (m_nSize b) (m_pData b)) /\
  (~ well_formed a -> Char8.char8_to_char char_is_signed a = Undefined).
Proof.
  split.
  - intros Ha Hb Hba Hbb.
    rewrite !char8_to_char_memcpy by done. intros [= Heq].
    pose proof Ha as Hla. pose proof Hb as Hlb. unfold well_formed in Hla, Hlb.
    assert (m_nSize a = m_nSize b) as Hsz.
    { apply (f_equal length) in Heq.
      rewrite !length_fmap, !length_take_le in Heq; lia. }
    split; [done|]. rewrite <- Hsz in *.
    apply take_agree; [lia | lia |]. intros i Hi.
    apply (f_equal (fun s => s !! i)) in Heq.
    rewrite !list_lookup_fmap, !lookup_take_lt in Heq by done.
    destruct (lookup_lt_is_Some_2 (m_pData a) i) as [x Hx]; [lia|].
    destruct (lookup_lt_is_Some_2 (m_pData b) i) as [y Hy]; [lia|].
    rewrite Hx, Hy in *. simpl in Heq. injection Heq as Heq. f_equal.
    apply (char_of_byte_inj char_is_signed); [by apply (Hba i) | | done].
    apply (Hbb i); [lia | done].
  - unfold well_formed, Char8.char8_to_char, Char8.memcpy. intros Hbad. simpl.
    rewrite Nat.mul_1_r. rewrite bool_decide_eq_false_2; [done | lia].
Qed.

Lemma char8_to_char_loses_nothing_witness :
  Char8.char8_to_char false (mk_view h_e_acute 9) = Undefined.
Proof.
  apply (char8_to_char_loses_nothing false (mk_view h_e_acute 9)
           (mk_view h_e_acute 9)).
  vm_compute. lia.
Defined.
